(** * hddled_tmj33: HDD LED driver for Terramaster NAS (Celeron J33xx)

    A shallow embedding of [hddled_tmj33.c] and the properties of its
    register table, its LED encoding and its character-device interface.

    Conventions of the embedding:
    - an [unsigned int] is a [Z] reduced with [u32]; an [int] is a [Z];
    - device memory is a finite map from physical address to 32-bit word;
      a register reads back the word last written to it, an address the
      map does not hold reads as 0, and the map the module starts from is
      arbitrary, so every power-on content is representable;
    - [ioremap] returns the physical address itself as the pointer
      ([None] is the NULL pointer returned on failure);
    - every port access, register access and mapping operation is appended
      to a chronological [trace];
    - dereferencing a NULL pointer, or indexing [hddleds] outside its five
      slots, ends the computation with [Oops];
    - [kmalloc] and [device_create] are taken to succeed. *)

From Stdlib Require Import ZArith Lia List String Ascii DecimalString.
From stdpp Require Import base option list gmap strings.

Local Open Scope Z_scope.

(** ** Machine words *)

Definition u32 (z : Z) : Z := z mod 2 ^ 32.
Definition u8 (z : Z) : Z := z mod 2 ^ 8.
Arguments u32 : simpl never.
Arguments u8 : simpl never.

(** ** Kernel-side data *)

(** [struct hddled]: the two mapped register pointers of one LED. *)
Record hddled := Hddled { green : option Z; red : option Z }.

(** [struct private_data] *)
Record private_data := PrivateData { read_done : bool }.

(** The part of [struct file] the driver uses: the minor number of the
    inode and the [private_data] pointer. *)
Record file := File { f_minor : nat; f_private : option private_data }.

Inductive event :=
| Outl (value port : Z)
| Inl (port value : Z)
| MmioRd (addr value : Z)
| MmioWr (addr value : Z)
| Ioremap (addr : Z) (ok : bool)
| Iounmap (addr : Z).

(** What the platform answers; fixed for one run of the module. *)
Record platform := Platform {
  pci_config : Z -> Z;      (* dword read on the data port for a latched address word *)
  ioremap_ok : Z -> bool;   (* does mapping this physical address succeed *)
  chrdev_major : Z;         (* what register_chrdev(0, ...) returns *)
  class_err : option Z      (* Some e: class_create returns ERR_PTR(e) *)
}.

(** The module's globals together with the hardware they drive. *)
Record kstate := KState {
  mem : gmap Z Z;                    (* device registers, by physical address *)
  cfg_ctrl : Z;                      (* word latched in the configuration-address port *)
  mapped : list Z;                   (* regions currently mapped, newest first *)
  majorNumber : Z;
  hddledClass : bool;                (* chrdev and class registered *)
  hddledDevices : list (option Z);   (* device nodes hddled<n> *)
  hddleds : list (option hddled);
  trace : list event
}.

Definition log (e : event) (st : kstate) : kstate :=
  KState (mem st) (cfg_ctrl st) (mapped st) (majorNumber st) (hddledClass st)
         (hddledDevices st) (hddleds st) (trace st ++ [e]).
Definition with_mem (m : gmap Z Z) (st : kstate) : kstate :=
  KState m (cfg_ctrl st) (mapped st) (majorNumber st) (hddledClass st)
         (hddledDevices st) (hddleds st) (trace st).
Definition with_cfg_ctrl (w : Z) (st : kstate) : kstate :=
  KState (mem st) w (mapped st) (majorNumber st) (hddledClass st)
         (hddledDevices st) (hddleds st) (trace st).
Definition with_mapped (l : list Z) (st : kstate) : kstate :=
  KState (mem st) (cfg_ctrl st) l (majorNumber st) (hddledClass st)
         (hddledDevices st) (hddleds st) (trace st).
Definition with_major (n : Z) (st : kstate) : kstate :=
  KState (mem st) (cfg_ctrl st) (mapped st) n (hddledClass st)
         (hddledDevices st) (hddleds st) (trace st).
Definition with_class (b : bool) (st : kstate) : kstate :=
  KState (mem st) (cfg_ctrl st) (mapped st) (majorNumber st) b
         (hddledDevices st) (hddleds st) (trace st).
Definition with_devices (l : list (option Z)) (st : kstate) : kstate :=
  KState (mem st) (cfg_ctrl st) (mapped st) (majorNumber st) (hddledClass st)
         l (hddleds st) (trace st).
Definition with_hddleds (l : list (option hddled)) (st : kstate) : kstate :=
  KState (mem st) (cfg_ctrl st) (mapped st) (majorNumber st) (hddledClass st)
         (hddledDevices st) l (trace st).

(** The state at module load: [hddledDevices] and [hddleds] are five NULL
    slots, nothing is mapped, the registers hold [m]. *)
Definition boot (m : gmap Z Z) : kstate :=
  KState m 0 [] 0 false (replicate 5 None) (replicate 5 None) [].

(** ** The kernel monad: state passing with a fault outcome *)

Inductive outcome (A : Type) :=
| Done (a : A)
| Oops.
Arguments Done {A} a.
Arguments Oops {A}.

Definition K (A : Type) : Type := kstate -> outcome A * kstate.

Definition kret {A} (a : A) : K A := fun st => (Done a, st).

Definition kbind {A B} (m : K A) (f : A -> K B) : K B :=
  fun st =>
    match m st with
    | (Done a, st') => f a st'
    | (Oops, st') => (Oops, st')
    end.

Notation "'do' x <- m ; k" := (kbind m (fun x => k))
  (at level 10, x name, m at level 100, k at level 200).
Notation "'run' m ; k" := (kbind m (fun _ => k))
  (at level 10, m at level 100, k at level 200).

Definition PCI_CFG_DATA : Z := 0xcfc.
Definition PCI_CFG_CTRL : Z := 0xcf8.

(** ** Primitives of the kernel the driver calls *)

Module Io.
Section WithPlatform.
Variable hw : platform.

(** outl(value, port): only the configuration-address port latches. *)
Definition outl (value port : Z) : K unit := fun st =>
  (Done tt,
   log (Outl value port)
       (if port =? PCI_CFG_CTRL then with_cfg_ctrl value st else st)).

(** inl(port): the configuration-data port answers for the latched word;
    any other port floats high. *)
Definition inl (port : Z) : K Z := fun st =>
  let v := if port =? PCI_CFG_DATA then u32 (pci_config hw (cfg_ctrl st))
           else 0xffffffff in
  (Done v, log (Inl port v) st).

(** ioremap(addr, size) *)
Definition ioremap (addr size : Z) : K (option Z) := fun st =>
  if ioremap_ok hw addr
  then (Done (Some addr),
        log (Ioremap addr true) (with_mapped (addr :: mapped st) st))
  else (Done None, log (Ioremap addr false) st).
End WithPlatform.

(** iounmap(p) *)
Definition iounmap (p : option Z) : K unit := fun st =>
  match p with
  | None => (Done tt, st)
  | Some a =>
      (Done tt,
       log (Iounmap a)
           (with_mapped (filter (fun b => negb (b =? a)) (mapped st)) st))
  end.

(** The 32-bit word a register currently holds. *)
Definition peek (m : gmap Z Z) (a : Z) : Z := u32 (default 0 (m !! a)).

Arguments peek : simpl never.

(** [*p] as an rvalue *)
Definition load (p : option Z) : K Z := fun st =>
  match p with
  | None => (Oops, st)
  | Some a => let v := peek (mem st) a in (Done v, log (MmioRd a v) st)
  end.

(** [*p = v] *)
Definition store (p : option Z) (v : Z) : K unit := fun st =>
  match p with
  | None => (Oops, st)
  | Some a =>
      (Done tt, log (MmioWr a (u32 v)) (with_mem (<[a := u32 v]> (mem st)) st))
  end.

(** [*p |= bits] and [*p &= bits] *)
Definition or_assign (p : option Z) (bits : Z) : K unit :=
  do w <- load p; store p (Z.lor w bits).
Definition and_assign (p : option Z) (bits : Z) : K unit :=
  do w <- load p; store p (Z.land w bits).
End Io.

(** ** Kernel string helpers used by the file operations

    [sprintf], [copy_to_user] and [kstrtoint_from_user] belong to the Linux
    kernel, not to the driver; they are modelled after the kernel's
    lib/vsprintf.c, uaccess and lib/kstrtox.c. *)

Definition EFAULT : Z := 14.
Definition EINVAL : Z := 22.
Definition ERANGE : Z := 34.

(** A user-space pointer: a faulting address, or a buffer with contents. *)
Inductive uptr :=
| BadPtr
| UBuf (bytes : string).

Definition ubytes (p : uptr) : string :=
  match p with BadPtr => EmptyString | UBuf b => b end.

(** sprintf(out, "%d", n) *)
Definition sprintf_d (n : Z) : string := NilZero.string_of_int (Z.to_int n).

(** copy_to_user(dst, src, n): returns the number of bytes not copied. *)
Definition copy_to_user (dst : uptr) (src : string) (n : nat) : Z * uptr :=
  match dst with
  | BadPtr => (Z.of_nat n, BadPtr)
  | UBuf old =>
      let k := Nat.min n (String.length old) in
      (Z.of_nat (n - k),
       UBuf (String.append (substring 0 k src)
                           (substring k (String.length old - k) old)))
  end.

Inductive kres :=
| KErr (err : Z)    (* negative errno, nothing stored *)
| KOk (val : Z).    (* returns 0, the value is stored through the pointer *)

(** A C string ends at its first NUL. *)
Fixpoint c_str (s : string) : string :=
  match s with
  | EmptyString => EmptyString
  | String c s' => if Ascii.eqb c zero then EmptyString else String c (c_str s')
  end.

Definition is_digit (c : ascii) : bool :=
  (48 <=? nat_of_ascii c)%nat && (nat_of_ascii c <=? 57)%nat.
Definition digit_val (c : ascii) : Z := Z.of_nat (nat_of_ascii c) - 48.

(** _parse_integer(s, 10, &res): the value of the leading decimal digits,
    how many there are, and what follows them. *)
Fixpoint _parse_integer (s : string) (res : Z) (rv : nat) : Z * nat * string :=
  match s with
  | String c s' =>
      if is_digit c then _parse_integer s' (res * 10 + digit_val c) (S rv)
      else (res, rv, s)
  | EmptyString => (res, rv, s)
  end.

Definition ULLONG_MAX : Z := 2 ^ 64 - 1.

Definition _kstrtoull (s : string) : kres :=
  let '(res, rv, rest) := _parse_integer s 0 0 in
  if res >? ULLONG_MAX then KErr (- ERANGE)
  else if (rv =? 0)%nat then KErr (- EINVAL)
  else
    let rest := match rest with
                | String c r => if Ascii.eqb c "010"%char then r else rest
                | EmptyString => rest
                end in
    match rest with
    | EmptyString => KOk res
    | String _ _ => KErr (- EINVAL)
    end.

Definition kstrtoull (s : string) : kres :=
  match s with
  | String "+" s' => _kstrtoull s'
  | _ => _kstrtoull s
  end.

Definition kstrtoll (s : string) : kres :=
  match s with
  | String "-" s' =>
      match _kstrtoull s' with
      | KErr e => KErr e
      | KOk tmp => if tmp >? 2 ^ 63 then KErr (- ERANGE) else KOk (- tmp)
      end
  | _ =>
      match kstrtoull s with
      | KErr e => KErr e
      | KOk tmp => if tmp >=? 2 ^ 63 then KErr (- ERANGE) else KOk tmp
      end
  end.

Definition kstrtoint (s : string) : kres :=
  match kstrtoll s with
  | KErr e => KErr e
  | KOk tmp =>
      if (tmp <? - 2 ^ 31) || (tmp >=? 2 ^ 31) then KErr (- ERANGE) else KOk tmp
  end.

(** kstrtoint_from_user(s, count, 10, &res): at most 34 bytes are copied
    from user space and parsed as a NUL-terminated string. *)
Definition kstrtoint_from_user (s : uptr) (count : Z) : kres :=
  let count := Z.to_nat (Z.min count 34) in
  if (String.length (ubytes s) <? count)%nat then KErr (- EFAULT)
  else kstrtoint (c_str (substring 0 count (ubytes s))).

(** ** The driver *)

Section Driver.
Variable hw : platform.

(** read_base (lines 108-117) *)
Definition read_base (offset : Z) : K Z :=
  let offset := u8 offset in
  let fun_ := 0 in
  let bus := 0 in
  let dev := 0x0d in
  run Io.outl
        (u32 (Z.lor (Z.lor (Z.lor (Z.lor 0x80000000 (Z.shiftl bus 16))
                                  (Z.shiftl dev 11))
                           (Z.shiftl fun_ 8))
                    offset))
        PCI_CFG_CTRL;
  do val <- Io.inl hw PCI_CFG_DATA;
  if val =? 0xffffffff then kret 0xD0000000 else kret (Z.land val 0xfffff000).

(** create_hddled (lines 247-252): neither mapping result is checked. *)
Definition create_hddled (addr : Z) : K hddled :=
  do g <- Io.ioremap hw addr 1;
  do r <- Io.ioremap hw (u32 (addr + 0x28)) 1;
  kret (Hddled g r).

(** register_chrdev(0, DEVICE_NAME, &fops), class_create, unregister_chrdev *)
Definition register_chrdev : K Z := fun st =>
  (Done (chrdev_major hw), st).
Definition class_create : K (option Z) := fun st =>
  match class_err hw with
  | Some e => (Done (Some e), st)
  | None => (Done None, with_class true st)
  end.
Definition unregister_chrdev : K unit := fun st => (Done tt, with_class false st).

(** [hddleds[i]] read and written as an array slot *)
Definition hddleds_get (i : nat) : K (option hddled) := fun st =>
  match hddleds st !! i with
  | Some slot => (Done slot, st)
  | None => (Oops, st)
  end.
Definition hddleds_set (i : nat) (slot : option hddled) : K unit := fun st =>
  if (i <? length (hddleds st))%nat
  then (Done tt, with_hddleds (<[i := slot]> (hddleds st)) st)
  else (Oops, st).

(** [led->green] and [led->red] through a possibly NULL [led] *)
Definition field (f : hddled -> option Z) (led : option hddled) : K (option Z) :=
  fun st => match led with
            | Some l => (Done (f l), st)
            | None => (Oops, st)
            end.

(** The device-creation loop (lines 139-141), [n] iterations from [i]. *)
Fixpoint create_devices (n i : nat) : K unit :=
  match n with
  | O => kret tt
  | S n' =>
      run (fun st => (Done tt,
                      with_devices (<[i := Some (Z.of_nat i + 1)]> (hddledDevices st)) st));
      create_devices n' (S i)
  end.

(** The mapping loop (lines 144-149), [n] iterations from index [i] with
    the running [offset]. *)
Fixpoint create_hddleds (n i : nat) (offset base : Z) : K unit :=
  match n with
  | O => kret tt
  | S n' =>
      do led <- create_hddled (u32 (base + offset));
      run hddleds_set i (Some led);
      (* Turn off LEDs *)
      do slot <- hddleds_get i;
      do g <- field green slot;
      run Io.or_assign g 0x1;
      do r <- field red slot;
      run Io.and_assign r 0xfffffffe;
      create_hddleds n' (S i) (offset + 0x8) base
  end.

(** hddled_init (lines 119-154) *)
Definition hddled_init : K Z :=
  do base <- read_base 0x10;
  do major <- register_chrdev;
  run (fun st => (Done tt, with_major major st));
  if major <? 0 then kret major
  else
    do cls <- class_create;
    match cls with
    | Some e => run unregister_chrdev; kret e
    | None =>
        run create_devices 5 0;
        run create_hddleds 5 0 0xC505B8 base;
        kret 0
    end.

(** hddled_exit (lines 156-172), [n] iterations from [minor]. *)
Fixpoint destroy_hddleds (n minor : nat) : K unit :=
  match n with
  | O => kret tt
  | S n' =>
      run (fun st => (Done tt, with_devices (<[minor := None]> (hddledDevices st)) st));
      do slot <- hddleds_get minor;
      do g <- field green slot;
      run Io.iounmap g;
      do r <- field red slot;
      run Io.iounmap r;
      run hddleds_set minor None;
      destroy_hddleds n' (S minor)
  end.

Definition hddled_exit : K unit :=
  run destroy_hddleds 5 0;
  unregister_chrdev.

(** dev_open (lines 174-180) *)
Definition dev_open (filep : file) : K (Z * file) :=
  kret (0, File (f_minor filep) (Some (PrivateData false))).

(** dev_release (lines 182-187) *)
Definition dev_release (filep : file) : K (Z * file) :=
  kret (0, File (f_minor filep) None).

(** [(struct private_data* )filep->private_data], dereferenced *)
Definition private_of (filep : file) : K private_data := fun st =>
  match f_private filep with
  | Some pd => (Done pd, st)
  | None => (Oops, st)
  end.

(** "Calculate current state" (line 201); the green register is read first. *)
Definition current_state (led : option hddled) : K Z :=
  do g <- field green led;
  do gw <- Io.load g;
  do r <- field red led;
  do rw <- Io.load r;
  kret (Z.lor (Z.lxor (Z.land gw 0x1) 0x1) (Z.shiftl (Z.land rw 0x1) 1)).

(** dev_read (lines 189-213): the result, the file and the user buffer. *)
Definition dev_read (filep : file) (buffer : uptr) (len : Z)
  : K (Z * file * uptr) :=
  do led <- hddleds_get (f_minor filep);
  do pd <- private_of filep;
  (* If we already returned the value to the user he should close the file *)
  if read_done pd then kret (0, filep, buffer)
  else
    do ret <- current_state led;
    let out := sprintf_d ret in
    let ret_len := String.length out in
    let '(err, buffer') := copy_to_user buffer out ret_len in
    if err =? 0
    then kret (Z.of_nat ret_len, File (f_minor filep) (Some (PrivateData true)), buffer')
    else kret (err, filep, buffer').

(** The two register updates of dev_write (lines 226-242). *)
Definition drive_leds (led : option hddled) (val : Z) : K unit :=
  (* Green LED *)
  do g <- field green led;
  run (if negb (Z.land val 0x1 =? 0)
       then Io.and_assign g 0xfffffffe   (* Turning on *)
       else Io.or_assign g 0x1);         (* Turning off *)
  (* Red LED *)
  do r <- field red led;
  if negb (Z.land (Z.shiftr val 1) 0x1 =? 0)
  then Io.or_assign r 0x1                (* Turning on *)
  else Io.and_assign r 0xfffffffe.       (* Turning off *)

(** dev_write (lines 215-245) *)
Definition dev_write (filep : file) (buffer : uptr) (len : Z) : K Z :=
  do led <- hddleds_get (f_minor filep);
  match kstrtoint_from_user buffer len with
  | KErr err => kret err
  | KOk val =>
      run drive_leds led val;
      kret len
  end.

End Driver.

(** ** The register table, and the device nodes as a user sees them *)

Definition OFF : Z := 0.
Definition GREEN : Z := 1.
Definition RED : Z := 2.
Definition BOTH : Z := 3.

Definition green_addr (base : Z) (i : nat) : Z :=
  u32 (base + 0xC505B8 + Z.of_nat i * 0x8).
Definition red_addr (base : Z) (i : nat) : Z :=
  u32 (green_addr base i + 0x28).

Definition led_handle (base : Z) (i : nat) : hddled :=
  Hddled (Some (green_addr base i)) (Some (red_addr base i)).

Definition led_table (base : Z) : list (option hddled) :=
  map (fun i => Some (led_handle base i)) (seq 0 5).

(** Every register of the table, in the order the module maps them. *)
Definition reg_addrs (base : Z) : list Z :=
  flat_map (fun i => [green_addr base i; red_addr base i]) (seq 0 5).

(** The registry is in place: [hddleds] holds the table built on [base]. *)
Definition registry (base : Z) (st : kstate) : Prop :=
  hddleds st = led_table base.

(** What the PCI probe of hddled_init answers, and the base it resolves to. *)
Definition probe (hw : platform) : Z := u32 (pci_config hw 0x80006810).
Definition resolved_base (hw : platform) : Z :=
  if probe hw =? 0xffffffff then 0xD0000000 else Z.land (probe hw) 0xfffff000.

(** A platform on which bring-up meets no failure. *)
Definition bring_up_ok (hw : platform) : Prop :=
  0 <= chrdev_major hw /\ class_err hw = None /\
  forall a, a ∈ reg_addrs (resolved_base hw) -> ioremap_ok hw a = true.

(** Reading LED [id] (1..5) the way [cat /dev/hddled<id>] does its first
    read: open, read into a one-byte buffer, close; the bytes delivered. *)
Definition get (id : nat) : K string :=
  do o <- dev_open (File (id - 1) None);
  do r <- dev_read (snd o) (UBuf " ") 1;
  run dev_release (snd (fst r));
  kret (substring 0 (Z.to_nat (fst (fst r))) (ubytes (snd r))).

(** Writing [payload] to the node of LED [id] (1..5). *)
Definition set (id : nat) (payload : string) : K Z :=
  dev_write (File (id - 1) None) (UBuf payload) (Z.of_nat (String.length payload)).

(** The state a pair of register words encodes: green is active-low, red
    is active-high. *)
Definition decode (gw rw : Z) : Z :=
  (if Z.testbit gw 0 then 0 else 1) + 2 * (if Z.testbit rw 0 then 1 else 0).

(** The register writes recorded in a trace, oldest first. *)
Definition writes (tr : list event) : list (Z * Z) :=
  omap (fun e => match e with MmioWr a v => Some (a, v) | _ => None end) tr.

(** One pass of the mapping loop as a state transformer: both regions
    mapped, slot [i] filled, green bit 0 set, red bit 0 cleared. *)
Definition off_events (g r : Z) (m : gmap Z Z) : list event :=
  [Ioremap g true; Ioremap r true;
   MmioRd g (Io.peek m g);
   MmioWr g (u32 (Z.lor (Io.peek m g) 0x1));
   MmioRd r (Io.peek (<[g := u32 (Z.lor (Io.peek m g) 0x1)]> m) r);
   MmioWr r (u32 (Z.land (Io.peek (<[g := u32 (Z.lor (Io.peek m g) 0x1)]> m) r)
                         0xfffffffe))].

Definition off_mem (g r : Z) (m : gmap Z Z) : gmap Z Z :=
  <[r := u32 (Z.land (Io.peek (<[g := u32 (Z.lor (Io.peek m g) 0x1)]> m) r)
                     0xfffffffe)]>
    (<[g := u32 (Z.lor (Io.peek m g) 0x1)]> m).

Definition pass_post (i : nat) (a : Z) (st : kstate) : kstate :=
  let g := a in
  let r := u32 (a + 0x28) in
  KState (off_mem g r (mem st)) (cfg_ctrl st) (r :: g :: mapped st)
         (majorNumber st) (hddledClass st) (hddledDevices st)
         (<[i := Some (Hddled (Some g) (Some r))]> (hddleds st))
         (trace st ++ off_events g r (mem st)).

Fixpoint loop_post (n i : nat) (offset base : Z) (st : kstate) : kstate :=
  match n with
  | O => st
  | S n' => loop_post n' (S i) (offset + 0x8) base (pass_post i (u32 (base + offset)) st)
  end.

(** The offsets of the registers from the base, in mapping order. *)
Definition reg_offsets : list Z :=
  flat_map (fun i => [0xC505B8 + Z.of_nat i * 0x8; 0xC505B8 + Z.of_nat i * 0x8 + 0x28])
           (seq 0 5).


(** The registers the loop maps in [n] passes from [offset], each with the
    value of bit 0 that turns its LED half off; the memory and the events
    the passes leave behind. *)
Fixpoint loop_expect (n : nat) (offset base : Z) : list (Z * bool) :=
  match n with
  | O => []
  | S n' =>
      (u32 (base + offset), true) :: (u32 (u32 (base + offset) + 0x28), false)
      :: loop_expect n' (offset + 0x8) base
  end.

Fixpoint loop_mem (n : nat) (offset base : Z) (m : gmap Z Z) : gmap Z Z :=
  match n with
  | O => m
  | S n' =>
      loop_mem n' (offset + 0x8) base
               (off_mem (u32 (base + offset)) (u32 (u32 (base + offset) + 0x28)) m)
  end.

Fixpoint loop_trace (n : nat) (offset base : Z) (m : gmap Z Z) : list event :=
  match n with
  | O => []
  | S n' =>
      off_events (u32 (base + offset)) (u32 (u32 (base + offset) + 0x28)) m
      ++ loop_trace n' (offset + 0x8) base
           (off_mem (u32 (base + offset)) (u32 (u32 (base + offset) + 0x28)) m)
  end.

Fixpoint loop_slots (n i : nat) (offset base : Z) (l : list (option hddled))
  : list (option hddled) :=
  match n with
  | O => l
  | S n' =>
      loop_slots n' (S i) (offset + 0x8) base
        (<[i := Some (Hddled (Some (u32 (base + offset)))
                             (Some (u32 (u32 (base + offset) + 0x28))))]> l)
  end.

(** The table's registers with the bit-0 value of the OFF state. *)
Definition off_table (base : Z) : list (Z * bool) :=
  flat_map (fun i => [(green_addr base i, true); (red_addr base i, false)]) (seq 0 5).

(** A recorded write [w] puts the expected bit-0 value on the expected
    register. *)
Definition write_matches (w : Z * Z) (e : Z * bool) : Prop :=
  w.1 = e.1 /\ Z.testbit w.2 0 = e.2.

(** The configuration-address word for a bus, device, function and
    register offset, and the base a probe answer resolves to. *)
Definition cfg_word (bus dev fn offset : Z) : Z :=
  Z.lor (Z.lor (Z.lor (Z.lor 0x80000000 (Z.shiftl bus 16)) (Z.shiftl dev 11))
               (Z.shiftl fn 8))
        offset.

Definition resolve (val : Z) : Z :=
  if val =? 0xffffffff then 0xD0000000 else Z.land val 0xfffff000.

(** The state read_base leaves: the word latched, both port accesses logged. *)
Definition probed (hw : platform) (offset : Z) (st : kstate) : kstate :=
  let w := cfg_word 0 0x0d 0 (u8 offset) in
  log (Inl PCI_CFG_DATA (u32 (pci_config hw w)))
      (log (Outl w PCI_CFG_CTRL) (with_cfg_ctrl w st)).

(** The device table after the device-creation loop. *)
Fixpoint devices_post (n i : nat) (l : list (option Z)) : list (option Z) :=
  match n with
  | O => l
  | S n' => devices_post n' (S i) (<[i := Some (Z.of_nat i + 1)]> l)
  end.

(** The state hddled_init reaches before it maps the first register. *)
Definition registered (hw : platform) (st : kstate) : kstate :=
  with_devices (devices_post 5 0 (hddledDevices st))
    (with_class true (with_major (chrdev_major hw) (probed hw 0x10 st))).

(** The two register updates of a write of [val], as a memory transformer
    and as the events they log. *)
Definition green_word (val w : Z) : Z :=
  u32 (if negb (Z.land val 0x1 =? 0) then Z.land w 0xfffffffe else Z.lor w 0x1).
Definition red_word (val w : Z) : Z :=
  u32 (if negb (Z.land (Z.shiftr val 1) 0x1 =? 0) then Z.lor w 0x1
       else Z.land w 0xfffffffe).

Definition drive_mem (g r val : Z) (m : gmap Z Z) : gmap Z Z :=
  <[r := red_word val (Io.peek (<[g := green_word val (Io.peek m g)]> m) r)]>
    (<[g := green_word val (Io.peek m g)]> m).

Definition drive_events (g r val : Z) (m : gmap Z Z) : list event :=
  [MmioRd g (Io.peek m g);
   MmioWr g (green_word val (Io.peek m g));
   MmioRd r (Io.peek (<[g := green_word val (Io.peek m g)]> m) r);
   MmioWr r (red_word val (Io.peek (<[g := green_word val (Io.peek m g)]> m) r))].

Definition drive_post (g r val : Z) (st : kstate) : kstate :=
  KState (drive_mem g r val (mem st)) (cfg_ctrl st) (mapped st) (majorNumber st)
         (hddledClass st) (hddledDevices st) (hddleds st)
         (trace st ++ drive_events g r val (mem st)).

(** The state after the two register reads of a state query. *)
Definition read_post (g r : Z) (st : kstate) : kstate :=
  KState (mem st) (cfg_ctrl st) (mapped st) (majorNumber st)
         (hddledClass st) (hddledDevices st) (hddleds st)
         (trace st ++ [MmioRd g (Io.peek (mem st) g); MmioRd r (Io.peek (mem st) r)]).

(** [n] further reads on one session, collecting what each returns. *)
Fixpoint read_again (n : nat) (filep : file) (buffer : uptr) (len : Z)
  : K (list (Z * uptr)) :=
  match n with
  | O => kret []
  | S n' =>
      do r <- dev_read filep buffer len;
      do rest <- read_again n' (snd (fst r)) (snd r) len;
      kret ((fst (fst r), snd r) :: rest)
  end.

(** ** Concrete platforms and states used to exercise the statements *)

(** The reference board: the probe answers "no device", so the fallback
    base is used; every mapping succeeds; major number 240. *)
Definition hw_ref : platform :=
  Platform (fun _ => 0xffffffff) (fun _ => true) 240 None.

(** A board whose probe answers a base register with flag bits set. *)
Definition hw_probe : platform :=
  Platform (fun w => if w =? 0x80006810 then 0xFED0100C else 0xffffffff)
           (fun _ => true) 240 None.

(** Power-on registers of the reference board with LED 2 orange, LED 4
    green and stray high bits in two words. *)
Definition mem_power_on : gmap Z Z :=
  <[0xD0C505C0 := 0xA5A5A5A4]> (<[0xD0C505E8 := 0x00FF0001]>
  (<[0xD0C505D0 := 0x12345670]> (<[0xD0C505F8 := 0x80000000]> ∅))).

(** The reference board after module load. *)
Definition st_ready : kstate := snd (hddled_init hw_ref (boot mem_power_on)).

(** A board on which mapping the green register of LED 3 fails. *)
Definition hw_map_fail : platform :=
  Platform (fun _ => 0xffffffff) (fun a => negb (a =? 0xD0C505C8)) 240 None.

(** All-or-nothing construction as a statement about one platform and one
    state: if some register of the table cannot be mapped, bring-up
    returns an error with every region it had mapped unmapped again. *)
Definition all_or_nothing (hw : platform) (st : kstate) : Prop :=
  (exists a, a ∈ reg_addrs (resolved_base hw) /\ ioremap_ok hw a = false) ->
  exists err st', hddled_init hw st = (Done err, st') /\ err < 0 /\ mapped st' = mapped st.

(** The regions a trace unmaps. *)
Definition unmaps (tr : list event) : list Z :=
  omap (fun e => match e with Iounmap a => Some a | _ => None end) tr.

(** A computation that unmaps nothing: whatever it does and however it
    ends, the regions mapped before are still mapped after it, under any
    regions it mapped itself, and its events contain no iounmap. *)
Definition keeps_mappings {A} (m : K A) : Prop :=
  forall st, exists l tr,
    mapped (snd (m st)) = l ++ mapped st /\
    trace (snd (m st)) = trace st ++ tr /\
    unmaps tr = [].

(** ** Teardown and user sessions as state transformers *)

(** Unmapping the regions [addrs] one after the other. *)
Definition unmap_list (addrs l : list Z) : list Z :=
  foldl (fun acc a => filter (fun b => negb (b =? a)) acc) l addrs.

(** One pass of the teardown loop over a slot holding the registers [g]
    and [r]: device node gone, both regions unmapped, slot cleared. *)
Definition unpass_post (minor : nat) (g r : Z) (st : kstate) : kstate :=
  KState (mem st) (cfg_ctrl st) (unmap_list [g; r] (mapped st))
         (majorNumber st) (hddledClass st)
         (<[minor := None]> (hddledDevices st))
         (<[minor := None]> (hddleds st))
         (trace st ++ [Iounmap g; Iounmap r]).

Fixpoint exit_post (n minor : nat) (base : Z) (st : kstate) : kstate :=
  match n with
  | O => st
  | S n' =>
      exit_post n' (S minor) base
        (unpass_post minor (green_addr base minor) (red_addr base minor) st)
  end.

(** What a user program does with one open file: reads and writes. *)
Inductive act :=
| ARead (buffer : uptr) (len : Z)
| AWrite (buffer : uptr) (len : Z).

(** The calls of [acts] on an open file, in order, with what each returns. *)
Fixpoint run_acts (filep : file) (acts : list act) : K (file * list Z) :=
  match acts with
  | [] => kret (filep, [])
  | ARead buffer len :: rest =>
      do r <- dev_read filep buffer len;
      do t <- run_acts (snd (fst r)) rest;
      kret (fst t, fst (fst r) :: snd t)
  | AWrite buffer len :: rest =>
      do r <- dev_write filep buffer len;
      do t <- run_acts filep rest;
      kret (fst t, r :: snd t)
  end.

(** One session on the node of LED [id]: open, the calls, close. *)
Definition session (id : nat) (acts : list act) : K (list Z) :=
  do o <- dev_open (File (id - 1) None);
  do t <- run_acts (snd o) acts;
  run dev_release (fst t);
  kret (snd t).

(** Sessions run one after the other. *)
Fixpoint run_sessions (l : list (nat * list act)) : K (list (list Z)) :=
  match l with
  | [] => kret []
  | (id, acts) :: rest =>
      do r <- session id acts;
      do t <- run_sessions rest;
      kret (r :: t)
  end.


(** Boards on which register_chrdev, or class_create, fails. *)
Definition hw_no_major : platform :=
  Platform (fun _ => 0xffffffff) (fun _ => true) (-16) None.

(** A run of writes, each a LedId, a user buffer and a length, with what
    each returns. *)
Fixpoint run_writes (ws : list (nat * uptr * Z)) : K (list Z) :=
  match ws with
  | [] => kret []
  | (id, buffer, len) :: rest =>
      do r <- dev_write (File (id - 1) None) buffer len;
      do t <- run_writes rest;
      kret (r :: t)
  end.

(** The value of the last write of [ws] on LedId [id] that parsed. *)
Fixpoint last_parsed (id : nat) (ws : list (nat * uptr * Z)) : option Z :=
  match ws with
  | [] => None
  | (id', buffer, len) :: rest =>
      match last_parsed id rest with
      | Some v => Some v
      | None =>
          if (id' =? id)%nat
          then match kstrtoint_from_user buffer len with
               | KOk v => Some v
               | KErr _ => None
               end
          else None
      end
  end.
(** ** Words and bits *)

Lemma u32_range x : 0 <= u32 x < 2 ^ 32.
Proof. unfold u32. apply Z.mod_pos_bound. lia. Qed.

Lemma u32_idem x : u32 (u32 x) = u32 x.
Proof. unfold u32. apply Z.mod_mod. lia. Qed.

Lemma u32_small x : 0 <= x < 2 ^ 32 -> u32 x = x.
Proof. unfold u32. apply Z.mod_small. Qed.

Lemma u32_add_l x y : u32 (u32 x + y) = u32 (x + y).
Proof. unfold u32. apply Zplus_mod_idemp_l. Qed.

Lemma u32_testbit x k : Z.testbit (u32 x) k = (k <? 32) && Z.testbit x k.
Proof. unfold u32. apply Z.testbit_mod_pow2. lia. Qed.

(** Two offsets less than 2^32 apart land on different addresses. *)
Lemma u32_offset_inj base x y :
  u32 (base + x) = u32 (base + y) -> - 2 ^ 32 < x - y < 2 ^ 32 -> x = y.
Proof.
  unfold u32. intros E B.
  assert (D : (x - y) mod 2 ^ 32 = 0).
  { replace (x - y) with ((base + x) - (base + y)) by lia.
    rewrite Zminus_mod, E, Z.sub_diag. reflexivity. }
  apply Z.mod_divide in D; [|lia]. destruct D as [q D]. nia.
Qed.

Lemma testbit_one k : 1 <= k -> Z.testbit 1 k = false.
Proof. intros. apply Z.bits_above_log2; simpl; lia. Qed.

Lemma testbit_fffffffe k :
  0 <= k -> Z.testbit 0xfffffffe k = (1 <=? k) && (k <? 32).
Proof.
  intros Hk. change 0xfffffffe with (Z.shiftl (Z.ones 31) 1).
  rewrite Z.shiftl_spec by assumption.
  rewrite Z.testbit_ones by lia.
  destruct (Z.leb_spec 1 k), (Z.leb_spec 0 (k - 1)),
    (Z.ltb_spec (k - 1) 31), (Z.ltb_spec k 32); simpl; try reflexivity; lia.
Qed.

Lemma u32_lor x y : u32 (Z.lor x y) = Z.lor (u32 x) (u32 y).
Proof.
  apply Z.bits_inj'. intros k _.
  rewrite Z.lor_spec, !u32_testbit, Z.lor_spec. destruct (k <? 32); reflexivity.
Qed.

Lemma u32_land x y : u32 (Z.land x y) = Z.land (u32 x) (u32 y).
Proof.
  apply Z.bits_inj'. intros k _.
  rewrite Z.land_spec, !u32_testbit, Z.land_spec.
  destruct (k <? 32), (Z.testbit x k), (Z.testbit y k); reflexivity.
Qed.

Lemma u8_range x : 0 <= u8 x < 2 ^ 8.
Proof. unfold u8. apply Z.mod_pos_bound. lia. Qed.

(** [|= 0x1] sets bit 0 and [&= 0xfffffffe] clears it; both keep every
    other bit of a 32-bit word. *)
Lemma or1_bit0 w : Z.testbit (u32 (Z.lor w 0x1)) 0 = true.
Proof. rewrite u32_testbit, Z.lor_spec. simpl. apply orb_true_r. Qed.

Lemma and_fe_bit0 w : Z.testbit (u32 (Z.land w 0xfffffffe)) 0 = false.
Proof. rewrite u32_testbit, Z.land_spec. simpl. apply andb_false_r. Qed.

Lemma or1_bits w k : 1 <= k -> Z.testbit (u32 (Z.lor w 0x1)) k = Z.testbit (u32 w) k.
Proof.
  intros Hk. rewrite !u32_testbit, Z.lor_spec, testbit_one by assumption.
  rewrite orb_false_r. reflexivity.
Qed.

Lemma and_fe_bits w k :
  1 <= k -> Z.testbit (u32 (Z.land w 0xfffffffe)) k = Z.testbit (u32 w) k.
Proof.
  intros Hk. rewrite !u32_testbit, Z.land_spec, testbit_fffffffe by lia.
  destruct (Z.leb_spec 1 k); [|lia].
  destruct (k <? 32), (Z.testbit w k); reflexivity.
Qed.

(** ** Register reads and writes *)

Lemma peek_u32 m a : u32 (Io.peek m a) = Io.peek m a.
Proof. unfold Io.peek. apply u32_idem. Qed.

Lemma peek_insert_eq (m : gmap Z Z) a v : Io.peek (<[a := u32 v]> m) a = u32 v.
Proof. unfold Io.peek. rewrite lookup_insert_eq. simpl. apply u32_idem. Qed.

Lemma peek_insert_ne (m : gmap Z Z) a b v : a ≠ b -> Io.peek (<[a := v]> m) b = Io.peek m b.
Proof. intros Hne. unfold Io.peek. rewrite lookup_insert_ne by assumption. reflexivity. Qed.

(** Storing a word that agrees with the old one on bit [k] changes bit [k]
    of no register. *)
Lemma insert_keeps_bit (m : gmap Z Z) a v b k :
  Z.testbit (u32 v) k = Z.testbit (Io.peek m a) k ->
  Z.testbit (Io.peek (<[a := u32 v]> m) b) k = Z.testbit (Io.peek m b) k.
Proof.
  intros Hv. destruct (decide (a = b)) as [->|Hne].
  - rewrite peek_insert_eq. assumption.
  - rewrite peek_insert_ne by assumption. reflexivity.
Qed.

Lemma off_mem_green m g r : g ≠ r -> Io.peek (off_mem g r m) g = u32 (Z.lor (Io.peek m g) 0x1).
Proof.
  intros Hne. unfold off_mem.
  rewrite peek_insert_ne by congruence. apply peek_insert_eq.
Qed.

Lemma off_mem_red m g r : g ≠ r -> Io.peek (off_mem g r m) r = u32 (Z.land (Io.peek m r) 0xfffffffe).
Proof.
  intros Hne. unfold off_mem.
  rewrite peek_insert_eq, peek_insert_ne by assumption. reflexivity.
Qed.

Lemma off_mem_other m g r a : a ≠ g -> a ≠ r -> Io.peek (off_mem g r m) a = Io.peek m a.
Proof.
  intros Hg Hr. unfold off_mem.
  rewrite !peek_insert_ne by congruence. reflexivity.
Qed.

Lemma off_mem_bits m g r a k :
  1 <= k -> Z.testbit (Io.peek (off_mem g r m) a) k = Z.testbit (Io.peek m a) k.
Proof.
  intros Hk. unfold off_mem.
  rewrite insert_keeps_bit.
  - apply insert_keeps_bit. rewrite or1_bits, peek_u32 by assumption. reflexivity.
  - rewrite and_fe_bits, peek_u32 by assumption. reflexivity.
Qed.

(** ** The register table *)

Lemma green_addr_offset base i : green_addr base i = u32 (base + (0xC505B8 + Z.of_nat i * 0x8)).
Proof. unfold green_addr. f_equal. lia. Qed.

Lemma red_addr_offset base i :
  red_addr base i = u32 (base + (0xC505B8 + Z.of_nat i * 0x8 + 0x28)).
Proof. unfold red_addr, green_addr. rewrite u32_add_l. f_equal. lia. Qed.

Lemma reg_addrs_offsets base : reg_addrs base = (fun x => u32 (base + x)) <$> reg_offsets.
Proof.
  unfold reg_addrs, reg_offsets. simpl.
  rewrite !green_addr_offset, !red_addr_offset. reflexivity.
Qed.

Lemma reg_offsets_spread :
  Forall (fun x => Forall (fun y => x = y \/ 8 <= u32 (x - y) <= 2 ^ 32 - 8) reg_offsets)
         reg_offsets.
Proof.
  apply (bool_decide_unpack _). vm_compute. exact I.
Qed.

(** Any two different registers of the table are at least 8 bytes apart,
    modulo 2^32: their 4-byte words share no byte. *)
Lemma reg_addrs_spread base a b :
  a ∈ reg_addrs base -> b ∈ reg_addrs base -> a ≠ b ->
  8 <= u32 (a - b) <= 2 ^ 32 - 8.
Proof.
  rewrite reg_addrs_offsets. intros Ha Hb Hne.
  apply list_elem_of_fmap in Ha as [x [-> Hx]].
  apply list_elem_of_fmap in Hb as [y [-> Hy]].
  pose proof reg_offsets_spread as S.
  rewrite Forall_forall in S. specialize (S x Hx).
  rewrite Forall_forall in S. specialize (S y Hy).
  destruct S as [->|S]; [congruence|].
  replace (u32 (u32 (base + x) - u32 (base + y))) with (u32 (x - y)); [exact S|].
  unfold u32. rewrite <- Zminus_mod. f_equal. lia.
Qed.

Lemma reg_addrs_NoDup base : NoDup (reg_addrs base).
Proof.
  rewrite reg_addrs_offsets. apply NoDup_fmap_2_strong.
  - intros x y Hx Hy E.
    pose proof reg_offsets_spread as S.
    rewrite Forall_forall in S. specialize (S x Hx).
    rewrite Forall_forall in S. specialize (S y Hy).
    destruct S as [->|S]; [reflexivity|].
    apply u32_offset_inj in E; [assumption|].
    unfold reg_offsets in Hx, Hy. simpl in Hx, Hy.
    set_unfold. lia.
  - unfold reg_offsets. simpl.
    apply NoDup_ListNoDup. repeat constructor; simpl; lia.
Qed.

(** ** Kernel states *)

Lemma kstate_eq (a b : kstate) :
  mem a = mem b -> cfg_ctrl a = cfg_ctrl b -> mapped a = mapped b ->
  majorNumber a = majorNumber b -> hddledClass a = hddledClass b ->
  hddledDevices a = hddledDevices b -> hddleds a = hddleds b ->
  trace a = trace b -> a = b.
Proof. destruct a, b. cbn. intros. subst. reflexivity. Qed.

Ltac kstate_fields :=
  cbn [mem cfg_ctrl mapped majorNumber hddledClass hddledDevices hddleds trace
       log with_mem with_cfg_ctrl with_mapped with_major with_class
       with_devices with_hddleds].

(** ** The mapping loop *)

Section Construction.
Variable hw : platform.

(** One pass of the loop whose two mappings succeed. *)
Lemma create_hddleds_pass n i offset base st :
  ioremap_ok hw (u32 (base + offset)) = true ->
  ioremap_ok hw (u32 (u32 (base + offset) + 0x28)) = true ->
  (i < length (hddleds st))%nat ->
  create_hddleds hw (S n) i offset base st
  = create_hddleds hw n (S i) (offset + 0x8) base
      (pass_post i (u32 (base + offset)) st).
Proof.
  intros Hg Hr Hi.
  cbn [create_hddleds]. unfold kbind at 1.
  unfold create_hddled, kbind, Io.ioremap. rewrite Hg. cbn -[insert]. rewrite Hr. cbn -[insert].
  unfold hddleds_set. simpl (hddleds _).
  apply Nat.ltb_lt in Hi as Hi'. rewrite Hi'. cbn -[insert].
  unfold hddleds_get. cbn -[insert]. rewrite list_lookup_insert_eq by assumption.
  cbn -[insert].
  f_equal. unfold pass_post, off_events, off_mem.
  apply kstate_eq; kstate_fields; try reflexivity.
  rewrite <- !app_assoc. reflexivity.
Qed.

(** The loop whose mappings all succeed runs to its end. *)
Lemma create_hddleds_ok n : forall i offset base st,
  (forall a, a ∈ (loop_expect n offset base).*1 -> ioremap_ok hw a = true) ->
  (i + n <= length (hddleds st))%nat ->
  create_hddleds hw n i offset base st = (Done tt, loop_post n i offset base st).
Proof.
  induction n as [|n IH]; intros i offset base st Hok Hlen.
  - reflexivity.
  - rewrite create_hddleds_pass.
    + cbn [loop_post]. apply IH.
      * intros a Ha. apply Hok. cbn. do 2 (apply elem_of_cons; right). exact Ha.
      * cbn. rewrite length_insert. lia.
    + apply Hok. cbn. apply elem_of_cons. left. reflexivity.
    + apply Hok. cbn. apply elem_of_cons. right. apply elem_of_cons. left. reflexivity.
    + lia.
Qed.

End Construction.

(** The state the loop leaves, field by field. *)
Lemma loop_post_frame n : forall i offset base st,
  cfg_ctrl (loop_post n i offset base st) = cfg_ctrl st /\
  majorNumber (loop_post n i offset base st) = majorNumber st /\
  hddledClass (loop_post n i offset base st) = hddledClass st /\
  hddledDevices (loop_post n i offset base st) = hddledDevices st.
Proof.
  induction n as [|n IH]; intros; [done|].
  cbn [loop_post]. destruct (IH (S i) (offset + 8) base
    (pass_post i (u32 (base + offset)) st)) as (-> & -> & -> & ->). done.
Qed.

Lemma loop_post_mem n : forall i offset base st,
  mem (loop_post n i offset base st) = loop_mem n offset base (mem st).
Proof.
  induction n as [|n IH]; intros; [done|].
  cbn [loop_post loop_mem]. rewrite IH. reflexivity.
Qed.

Lemma loop_post_trace n : forall i offset base st,
  trace (loop_post n i offset base st) = trace st ++ loop_trace n offset base (mem st).
Proof.
  induction n as [|n IH]; intros.
  - cbn. by rewrite app_nil_r.
  - cbn [loop_post loop_trace]. rewrite IH. cbn. by rewrite <- app_assoc.
Qed.

Lemma loop_post_mapped n : forall i offset base st,
  mapped (loop_post n i offset base st)
  = rev (loop_expect n offset base).*1 ++ mapped st.
Proof.
  induction n as [|n IH]; intros; [done|].
  cbn [loop_post loop_expect]. rewrite IH. cbn.
  rewrite <- !app_assoc. reflexivity.
Qed.

Lemma loop_post_hddleds n : forall i offset base st,
  hddleds (loop_post n i offset base st) = loop_slots n i offset base (hddleds st).
Proof.
  induction n as [|n IH]; intros; [done|].
  cbn [loop_post loop_slots]. rewrite IH. reflexivity.
Qed.

(** The loop changes no bit above bit 0, of any register. *)
Lemma loop_mem_bits n : forall offset base m a k,
  1 <= k ->
  Z.testbit (Io.peek (loop_mem n offset base m) a) k = Z.testbit (Io.peek m a) k.
Proof.
  induction n as [|n IH]; intros; [done|].
  cbn [loop_mem]. rewrite IH by assumption. by apply off_mem_bits.
Qed.

(** Registers outside the passes keep their word. *)
Lemma loop_mem_other n : forall offset base m a,
  a ∉ (loop_expect n offset base).*1 ->
  Io.peek (loop_mem n offset base m) a = Io.peek m a.
Proof.
  induction n as [|n IH]; intros offset base m a Ha; [done|].
  cbn in Ha. cbn [loop_mem].
  apply not_elem_of_cons in Ha as [Hg Ha]. apply not_elem_of_cons in Ha as [Hr Ha].
  rewrite IH by exact Ha. apply off_mem_other; assumption.
Qed.

(** When the passes hit different registers, each register ends with the
    bit 0 of the OFF state. *)
Lemma loop_mem_bit0 n : forall offset base m a b,
  NoDup (loop_expect n offset base).*1 ->
  (a, b) ∈ loop_expect n offset base ->
  Z.testbit (Io.peek (loop_mem n offset base m) a) 0 = b.
Proof.
  induction n as [|n IH]; intros offset base m a b Hnd Hin.
  - cbn in Hin. inversion Hin.
  - cbn in Hnd, Hin. cbn [loop_mem].
    apply NoDup_cons in Hnd as [Hg Hnd]. apply NoDup_cons in Hnd as [Hr Hnd].
    apply elem_of_cons in Hin as [Hin|Hin]; [|apply elem_of_cons in Hin as [Hin|Hin]].
    + inversion Hin; subst. apply not_elem_of_cons in Hg as [Hgr Hg].
      rewrite loop_mem_other by exact Hg.
      rewrite off_mem_green by exact Hgr. apply or1_bit0.
    + inversion Hin; subst. apply not_elem_of_cons in Hg as [Hgr Hg].
      rewrite loop_mem_other by exact Hr.
      rewrite off_mem_red by exact Hgr. apply and_fe_bit0.
    + by apply IH.
Qed.

(** Every pass writes each of its two registers once, green with bit 0 set
    and red with bit 0 cleared. *)
Lemma loop_trace_writes n : forall offset base m,
  Forall2 write_matches (writes (loop_trace n offset base m)) (loop_expect n offset base).
Proof.
  induction n as [|n IH]; intros; [constructor|].
  cbn [loop_trace loop_expect]. unfold writes in *. rewrite omap_app.
  unfold off_events. cbn [omap list_omap app].
  constructor; [|constructor; [|apply IH]]; split; cbn [fst snd];
    auto using or1_bit0, and_fe_bit0.
Qed.

(** ** Probing the base address *)

Lemma cfg_word_u32 offset : u32 (cfg_word 0 0x0d 0 (u8 offset)) = cfg_word 0 0x0d 0 (u8 offset).
Proof.
  unfold cfg_word. rewrite u32_lor. f_equal.
  apply u32_small. pose proof (u8_range offset). lia.
Qed.

Lemma resolve_range val : 0 <= resolve (u32 val) < 2 ^ 32.
Proof.
  unfold resolve. destruct (u32 val =? 0xffffffff); [lia|].
  replace (Z.land (u32 val) 0xfffff000) with (u32 (Z.land val 0xfffff000)).
  - apply u32_range.
  - rewrite u32_land. reflexivity.
Qed.

Lemma resolve_aligned val : resolve val mod 2 ^ 12 = 0.
Proof.
  unfold resolve. destruct (val =? 0xffffffff); [reflexivity|].
  rewrite <- Z.land_ones, <- Z.land_assoc by lia. apply Z.land_0_r.
Qed.

Lemma kbind_done {A B} (m : K A) (f : A -> K B) st a st' :
  m st = (Done a, st') -> kbind m f st = f a st'.
Proof. unfold kbind. intros ->. reflexivity. Qed.

Lemma kbind_oops {A B} (m : K A) (f : A -> K B) st st' :
  m st = (Oops, st') -> kbind m f st = (Oops, st').
Proof. unfold kbind. intros ->. reflexivity. Qed.

Lemma read_base_eq hw offset st :
  read_base hw offset st
  = (Done (resolve (u32 (pci_config hw (cfg_word 0 0x0d 0 (u8 offset))))),
     probed hw offset st).
Proof.
  unfold read_base, probed.
  change (Z.lor _ (u8 offset)) with (cfg_word 0 0x0d 0 (u8 offset)).
  rewrite cfg_word_u32. unfold kbind, Io.outl, Io.inl, resolve.
  cbn [Z.eqb PCI_CFG_CTRL PCI_CFG_DATA Pos.eqb].
  kstate_fields.
  destruct (u32 (pci_config hw (cfg_word 0 13 0 (u8 offset))) =? 4294967295);
    reflexivity.
Qed.

(** ** Bring-up *)

Lemma create_devices_eq n : forall i st,
  create_devices n i st = (Done tt, with_devices (devices_post n i (hddledDevices st)) st).
Proof.
  induction n as [|n IH]; intros i st.
  - cbn. f_equal. apply kstate_eq; reflexivity.
  - cbn [create_devices devices_post]. unfold kbind. rewrite IH. reflexivity.
Qed.

(** The five passes from offset 0xC505B8 visit the table's registers. *)
Lemma loop_expect_table base : loop_expect 5 0xC505B8 base = off_table base.
Proof.
  unfold off_table. cbn [loop_expect flat_map seq app].
  rewrite !green_addr_offset, !red_addr_offset.
  rewrite !u32_add_l, <- !Z.add_assoc. reflexivity.
Qed.

Lemma off_table_addrs base : (off_table base).*1 = reg_addrs base.
Proof. reflexivity. Qed.

Lemma loop_slots_table base (l : list (option hddled)) :
  length l = 5%nat -> loop_slots 5 0 0xC505B8 base l = led_table base.
Proof.
  intros Hl.
  destruct l as [|s0 [|s1 [|s2 [|s3 [|s4 [|s5 l]]]]]]; try discriminate Hl.
  unfold led_table, led_handle. cbn [loop_slots map seq].
  cbn [insert list_insert].
  rewrite !green_addr_offset, !red_addr_offset.
  rewrite !u32_add_l, <- !Z.add_assoc. reflexivity.
Qed.

Lemma hddled_init_ok hw st :
  bring_up_ok hw -> length (hddleds st) = 5%nat ->
  hddled_init hw st
  = (Done 0, loop_post 5 0 0xC505B8 (resolved_base hw) (registered hw st)).
Proof.
  intros (Hmajor & Hclass & Hmap) Hlen. unfold hddled_init.
  rewrite (kbind_done _ _ _ _ _ (read_base_eq hw 0x10 st)).
  unfold register_chrdev at 1. unfold kbind at 1. unfold kbind at 1.
  destruct (Z.ltb_spec (chrdev_major hw) 0) as [Hneg|_]; [lia|].
  unfold class_create, kbind at 1. rewrite Hclass.
  rewrite (kbind_done _ _ _ _ _ (create_devices_eq 5 0 _)).
  erewrite kbind_done.
  2:{ apply create_hddleds_ok.
      - rewrite loop_expect_table, off_table_addrs. exact Hmap.
      - unfold probed. kstate_fields. rewrite Hlen. reflexivity. }
  reflexivity.
Qed.

(** ** Encoding of the LED state *)

Lemma land_1 w : Z.land w 0x1 = Z.b2z (Z.testbit w 0).
Proof. change 0x1 with (Z.ones 1). rewrite Z.land_ones by lia. symmetry. apply Z.bit0_mod. Qed.

Lemma shiftr_1_bit0 v : Z.testbit (Z.shiftr v 1) 0 = Z.testbit v 1.
Proof. rewrite Z.shiftr_spec by lia. reflexivity. Qed.

(** The expression of line 201 is [decode]. *)
Lemma decode_expr gw rw :
  Z.lor (Z.lxor (Z.land gw 0x1) 0x1) (Z.shiftl (Z.land rw 0x1) 1) = decode gw rw.
Proof.
  rewrite !land_1. unfold decode.
  destruct (Z.testbit gw 0), (Z.testbit rw 0); reflexivity.
Qed.

Lemma decode_cases gw rw :
  decode gw rw = 0 \/ decode gw rw = 1 \/ decode gw rw = 2 \/ decode gw rw = 3.
Proof. unfold decode. destruct (Z.testbit gw 0), (Z.testbit rw 0); cbn; auto. Qed.

(** The two low bits of [v], as the state they request. *)
Lemma land_3 v :
  Z.land v 3 = Z.b2z (Z.testbit v 0) + 2 * Z.b2z (Z.testbit v 1).
Proof.
  change 3 with (Z.ones 2). rewrite Z.land_ones by lia.
  change (2 ^ 2) with (2 * 2). rewrite Z.rem_mul_r by lia.
  rewrite <- (Z.bit0_mod v), <- (Z.bit0_mod (v / 2)).
  rewrite Z.div2_bits by lia. reflexivity.
Qed.

Lemma green_word_bit0 val w : Z.testbit (green_word val w) 0 = negb (Z.testbit val 0).
Proof.
  unfold green_word. rewrite land_1.
  destruct (Z.testbit val 0); cbn [Z.b2z Z.eqb negb].
  - apply and_fe_bit0.
  - apply or1_bit0.
Qed.

Lemma red_word_bit0 val w : Z.testbit (red_word val w) 0 = Z.testbit val 1.
Proof.
  unfold red_word. rewrite land_1, shiftr_1_bit0.
  destruct (Z.testbit val 1); cbn [Z.b2z Z.eqb negb].
  - apply or1_bit0.
  - apply and_fe_bit0.
Qed.

Lemma green_word_bits val w k : 1 <= k -> Z.testbit (green_word val w) k = Z.testbit (u32 w) k.
Proof.
  intros Hk. unfold green_word.
  destruct (negb _); [by apply and_fe_bits | by apply or1_bits].
Qed.

Lemma red_word_bits val w k : 1 <= k -> Z.testbit (red_word val w) k = Z.testbit (u32 w) k.
Proof.
  intros Hk. unfold red_word.
  destruct (negb _); [by apply or1_bits | by apply and_fe_bits].
Qed.

Lemma green_word_u32 val w : u32 (green_word val w) = green_word val w.
Proof. apply u32_idem. Qed.

Lemma red_word_u32 val w : u32 (red_word val w) = red_word val w.
Proof. apply u32_idem. Qed.

(** What a write leaves in the registers. *)
Lemma drive_mem_green g r val m :
  g ≠ r -> Io.peek (drive_mem g r val m) g = green_word val (Io.peek m g).
Proof.
  intros Hne. unfold drive_mem. rewrite peek_insert_ne by congruence.
  rewrite <- green_word_u32. apply peek_insert_eq.
Qed.

Lemma drive_mem_red g r val m :
  g ≠ r -> Io.peek (drive_mem g r val m) r = red_word val (Io.peek m r).
Proof.
  intros Hne. unfold drive_mem.
  rewrite <- red_word_u32, peek_insert_eq, red_word_u32.
  rewrite peek_insert_ne by assumption. reflexivity.
Qed.

Lemma drive_mem_other g r val m a :
  a ≠ g -> a ≠ r -> Io.peek (drive_mem g r val m) a = Io.peek m a.
Proof.
  intros Hg Hr. unfold drive_mem. rewrite !peek_insert_ne by congruence. reflexivity.
Qed.

Lemma drive_mem_bits g r val m a k :
  1 <= k -> Z.testbit (Io.peek (drive_mem g r val m) a) k = Z.testbit (Io.peek m a) k.
Proof.
  intros Hk. unfold drive_mem.
  rewrite <- red_word_u32, insert_keeps_bit.
  - rewrite <- green_word_u32. apply insert_keeps_bit.
    rewrite green_word_u32, green_word_bits, peek_u32 by assumption. reflexivity.
  - rewrite red_word_u32, red_word_bits, peek_u32 by assumption. reflexivity.
Qed.

(** ** File operations on a built registry *)

Lemma led_table_lookup base i :
  (i < 5)%nat -> led_table base !! i = Some (Some (led_handle base i)).
Proof.
  intros Hi. unfold led_table.
  rewrite list_lookup_fmap, lookup_seq_lt by assumption. reflexivity.
Qed.

Lemma hddleds_get_registry base st i :
  registry base st -> (i < 5)%nat ->
  hddleds_get i st = (Done (Some (led_handle base i)), st).
Proof.
  intros Hreg Hi. unfold hddleds_get. rewrite Hreg, led_table_lookup by assumption.
  reflexivity.
Qed.

Lemma current_state_eq g r st :
  current_state (Some (Hddled (Some g) (Some r))) st
  = (Done (decode (Io.peek (mem st) g) (Io.peek (mem st) r)), read_post g r st).
Proof.
  unfold current_state, kbind, field, Io.load, kret. cbn [green red].
  kstate_fields. rewrite decode_expr. f_equal.
  apply kstate_eq; kstate_fields; try reflexivity.
  rewrite <- app_assoc. reflexivity.
Qed.

Lemma drive_leds_eq g r val st :
  drive_leds (Some (Hddled (Some g) (Some r))) val st = (Done tt, drive_post g r val st).
Proof.
  unfold drive_leds, kbind at 1, field. cbn [green red].
  unfold kbind at 1.
  assert (Hg : (if negb (Z.land val 1 =? 0)
                then Io.and_assign (Some g) 0xfffffffe
                else Io.or_assign (Some g) 0x1) st
               = (Done tt,
                  log (MmioWr g (green_word val (Io.peek (mem st) g)))
                      (with_mem (<[g := green_word val (Io.peek (mem st) g)]> (mem st))
                                (log (MmioRd g (Io.peek (mem st) g)) st)))).
  { unfold green_word. destruct (negb (Z.land val 1 =? 0)); reflexivity. }
  rewrite Hg. unfold kbind at 1.
  set (st1 := log _ _).
  assert (Hr : (if negb (Z.land (Z.shiftr val 1) 1 =? 0)
                then Io.or_assign (Some r) 0x1
                else Io.and_assign (Some r) 0xfffffffe) st1
               = (Done tt,
                  log (MmioWr r (red_word val (Io.peek (mem st1) r)))
                      (with_mem (<[r := red_word val (Io.peek (mem st1) r)]> (mem st1))
                                (log (MmioRd r (Io.peek (mem st1) r)) st1)))).
  { unfold red_word. destruct (negb (Z.land (Z.shiftr val 1) 1 =? 0)); reflexivity. }
  rewrite Hr. f_equal. subst st1.
  apply kstate_eq; kstate_fields; try reflexivity.
  unfold drive_events. rewrite <- !app_assoc. reflexivity.
Qed.

Lemma dev_write_eq base st i pd buffer len :
  registry base st -> (i < 5)%nat ->
  dev_write (File i pd) buffer len st
  = match kstrtoint_from_user buffer len with
    | KErr err => (Done err, st)
    | KOk val => (Done len, drive_post (green_addr base i) (red_addr base i) val st)
    end.
Proof.
  intros Hreg Hi. unfold dev_write. cbn [f_minor].
  rewrite (kbind_done _ _ _ _ _ (hddleds_get_registry base st i Hreg Hi)).
  destruct (kstrtoint_from_user buffer len) as [err|val]; [reflexivity|].
  unfold led_handle. rewrite (kbind_done _ _ _ _ _ (drive_leds_eq _ _ val st)).
  reflexivity.
Qed.

Lemma substring_all s : substring 0 (String.length s) s = s.
Proof. induction s as [|c s IH]; cbn; [reflexivity | by rewrite IH]. Qed.

(** A single digit lands in front of a user buffer with room for it. *)
Lemma copy_digit c rest d :
  copy_to_user (UBuf (String c rest)) (String d EmptyString) 1
  = (0, UBuf (String d rest)).
Proof.
  unfold copy_to_user. cbn [String.length Nat.min Nat.sub Z.of_nat].
  rewrite Nat.sub_0_r. cbn [substring String.append].
  rewrite substring_all. reflexivity.
Qed.

Lemma sprintf_state gw rw :
  exists d, sprintf_d (decode gw rw) = String d EmptyString /\
            (d = "0" \/ d = "1" \/ d = "2" \/ d = "3")%char.
Proof.
  destruct (decode_cases gw rw) as [-> | [-> | [-> | ->]]]; eexists; split;
    try reflexivity; auto.
Qed.

(** The first read of a session on a writable buffer. *)
Lemma dev_read_first base st i c rest len :
  registry base st -> (i < 5)%nat ->
  dev_read (File i (Some (PrivateData false))) (UBuf (String c rest)) len st
  = (Done (1, File i (Some (PrivateData true)),
           UBuf (String.append
                   (sprintf_d (decode (Io.peek (mem st) (green_addr base i))
                                      (Io.peek (mem st) (red_addr base i))))
                   rest)),
     read_post (green_addr base i) (red_addr base i) st).
Proof.
  intros Hreg Hi. unfold dev_read. cbn [f_minor].
  rewrite (kbind_done _ _ _ _ _ (hddleds_get_registry base st i Hreg Hi)).
  unfold private_of at 1, kbind at 1. cbn [f_private read_done].
  unfold led_handle. rewrite (kbind_done _ _ _ _ _ (current_state_eq _ _ st)).
  destruct (sprintf_state (Io.peek (mem st) (green_addr base i))
                          (Io.peek (mem st) (red_addr base i))) as [d [-> _]].
  cbn [String.length]. rewrite copy_digit. reflexivity.
Qed.

(** A read on a session that was already served. *)
Lemma dev_read_served base st i buffer len :
  registry base st -> (i < 5)%nat ->
  dev_read (File i (Some (PrivateData true))) buffer len st
  = (Done (0, File i (Some (PrivateData true)), buffer), st).
Proof.
  intros Hreg Hi. unfold dev_read. cbn [f_minor].
  rewrite (kbind_done _ _ _ _ _ (hddleds_get_registry base st i Hreg Hi)).
  reflexivity.
Qed.

Lemma get_eq base st id :
  registry base st -> (1 <= id <= 5)%nat ->
  get id st
  = (Done (sprintf_d (decode (Io.peek (mem st) (green_addr base (id - 1)))
                             (Io.peek (mem st) (red_addr base (id - 1))))),
     read_post (green_addr base (id - 1)) (red_addr base (id - 1)) st).
Proof.
  intros Hreg Hid. unfold get, dev_open. unfold kbind at 1, kret at 1.
  cbn [snd f_minor].
  rewrite (kbind_done _ _ _ _ _ (dev_read_first base st (id - 1) " " EmptyString 1 Hreg ltac:(lia))).
  unfold dev_release, kbind, kret. cbn [fst snd ubytes Z.to_nat Pos.to_nat Pos.iter_op Nat.add].
  destruct (sprintf_state (Io.peek (mem st) (green_addr base (id - 1)))
                          (Io.peek (mem st) (red_addr base (id - 1)))) as [d [-> _]].
  reflexivity.
Qed.

Lemma table_distinct base i j :
  (i < 5)%nat -> (j < 5)%nat ->
  green_addr base i ≠ red_addr base j /\
  (i ≠ j -> green_addr base i ≠ green_addr base j /\ red_addr base i ≠ red_addr base j).
Proof.
  intros Hi Hj. rewrite !green_addr_offset, !red_addr_offset.
  split; [|intros Hne; split]; intros E; apply u32_offset_inj in E; lia.
Qed.

Lemma registry_ready : registry 0xD0000000 st_ready.
Proof. vm_compute. reflexivity. Qed.

Lemma bring_up_ok_ref : bring_up_ok hw_ref.
Proof. split; [vm_compute; discriminate | split; [reflexivity | intros; reflexivity]]. Qed.

(** ** The reference board, end to end *)

Example parse_payloads :
  kstrtoint_from_user (UBuf "7") 1 = KOk 7 /\
  kstrtoint_from_user (UBuf "2
") 2 = KOk 2 /\
  kstrtoint_from_user (UBuf "+3") 2 = KOk 3 /\
  kstrtoint_from_user (UBuf "-1") 2 = KOk (-1) /\
  kstrtoint_from_user (UBuf "abc") 3 = KErr (- EINVAL) /\
  kstrtoint_from_user (UBuf "") 0 = KErr (- EINVAL) /\
  kstrtoint_from_user (UBuf "4294967296") 10 = KErr (- ERANGE) /\
  kstrtoint_from_user BadPtr 1 = KErr (- EFAULT).
Proof. repeat apply conj; vm_compute; reflexivity. Qed.

Example print_states :
  sprintf_d OFF = "0"%string /\ sprintf_d GREEN = "1"%string /\
  sprintf_d RED = "2"%string /\ sprintf_d BOTH = "3"%string.
Proof. repeat apply conj; vm_compute; reflexivity. Qed.

Example ref_board_table :
  resolved_base hw_ref = 0xD0000000 /\
  green_addr 0xD0000000 2 = 0xD0C505C8 /\ red_addr 0xD0000000 2 = 0xD0C505F0 /\
  reg_addrs 0xD0000000
  = [0xD0C505B8; 0xD0C505E0; 0xD0C505C0; 0xD0C505E8; 0xD0C505C8; 0xD0C505F0;
     0xD0C505D0; 0xD0C505F8; 0xD0C505D8; 0xD0C50600].
Proof. repeat apply conj; vm_compute; reflexivity. Qed.

(** Module load turns the orange LED 2 and the green LED 4 off and keeps
    the stray high bits of their words. *)
Example ref_board_after_load :
  fst (hddled_init hw_ref (boot mem_power_on)) = Done 0 /\
  Io.peek (mem st_ready) 0xD0C505C0 = 0xA5A5A5A5 /\
  Io.peek (mem st_ready) 0xD0C505E8 = 0x00FF0000 /\
  Io.peek (mem st_ready) 0xD0C505D0 = 0x12345671 /\
  Io.peek (mem st_ready) 0xD0C505F8 = 0x80000000 /\
  Io.peek (mem st_ready) 0xD0C505B8 = 1 /\
  Io.peek (mem st_ready) 0xD0C505E0 = 0 /\
  fst (get 2 st_ready) = Done "0"%string /\ fst (get 4 st_ready) = Done "0"%string.
Proof. repeat apply conj; vm_compute; reflexivity. Qed.

(** Module unload releases the ten regions and clears the slots. *)
Example ref_board_unload :
  fst (hddled_exit st_ready) = Done tt /\
  mapped (snd (hddled_exit st_ready)) = [] /\
  hddleds (snd (hddled_exit st_ready)) = replicate 5 None /\
  unmaps (trace (snd (hddled_exit st_ready))) = reg_addrs 0xD0000000.
Proof. repeat apply conj; vm_compute; reflexivity. Qed.

(** Writing "3" to LED 3 and reading gives "3"; writing "0" and reading
    gives "0". *)
Example ref_board_led3 :
  fst (set 3 "3" st_ready) = Done 1 /\
  fst (get 3 (snd (set 3 "3" st_ready))) = Done "3"%string /\
  fst (get 3 (snd (set 3 "0" (snd (set 3 "3" st_ready))))) = Done "0"%string /\
  writes (trace (snd (set 3 "3" st_ready)))
  = writes (trace st_ready) ++ [(0xD0C505C8, 0); (0xD0C505F0, 1)].
Proof. repeat apply conj; vm_compute; reflexivity. Qed.

(** * The claims *)

(** C1. LED isolation: for two different LedIds [i] and [j] in 1..5, a write
    of any payload to the node of [i] changes neither the state read from
    [j] nor the words of the two registers of [j]; the ten register
    addresses of the table are pairwise different, and any two of them lie
    at least 8 bytes apart modulo 2^32, so that no 4-byte register word of
    one LED overlaps a register of another. *)
Theorem led_isolation base st i j payload :
  registry base st -> (1 <= i <= 5)%nat -> (1 <= j <= 5)%nat -> i ≠ j ->
  fst (get j (snd (set i payload st))) = fst (get j st) /\
  Io.peek (mem (snd (set i payload st))) (green_addr base (j - 1))
  = Io.peek (mem st) (green_addr base (j - 1)) /\
  Io.peek (mem (snd (set i payload st))) (red_addr base (j - 1))
  = Io.peek (mem st) (red_addr base (j - 1)) /\
  NoDup (reg_addrs base) /\
  (forall a b, a ∈ reg_addrs base -> b ∈ reg_addrs base -> a ≠ b ->
               8 <= u32 (a - b) <= 2 ^ 32 - 8).
Proof.
  intros Hreg Hi Hj Hne.
  assert (Hkeep :
    Io.peek (mem (snd (set i payload st))) (green_addr base (j - 1))
    = Io.peek (mem st) (green_addr base (j - 1)) /\
    Io.peek (mem (snd (set i payload st))) (red_addr base (j - 1))
    = Io.peek (mem st) (red_addr base (j - 1)) /\
    registry base (snd (set i payload st))).
  { unfold set. rewrite (dev_write_eq base) by (assumption || lia).
    destruct (kstrtoint_from_user _ _) as [err|val]; [done|].
    cbn [snd drive_post mem]. unfold registry. cbn [hddleds drive_post].
    destruct (table_distinct base (j - 1) (i - 1)) as [Hgr Hd]; [lia..|].
    destruct (table_distinct base (i - 1) (j - 1)) as [Hgr' _]; [lia..|].
    destruct Hd as [Hgg Hrr]; [lia|].
    rewrite !drive_mem_other by congruence. done. }
  destruct Hkeep as (Hg & Hr & Hreg').
  split; [|split; [exact Hg|split; [exact Hr|split]]].
  - rewrite (get_eq base) by assumption. rewrite (get_eq base st) by assumption.
    cbn [fst]. rewrite Hg, Hr. reflexivity.
  - apply reg_addrs_NoDup.
  - apply reg_addrs_spread.
Qed.

Lemma led_isolation_witness :
  fst (get 2 (snd (set 1 "3" st_ready))) = fst (get 2 st_ready) /\
  Io.peek (mem (snd (set 1 "3" st_ready))) (green_addr 0xD0000000 (2 - 1))
  = Io.peek (mem st_ready) (green_addr 0xD0000000 (2 - 1)) /\
  Io.peek (mem (snd (set 1 "3" st_ready))) (red_addr 0xD0000000 (2 - 1))
  = Io.peek (mem st_ready) (red_addr 0xD0000000 (2 - 1)) /\
  NoDup (reg_addrs 0xD0000000) /\
  (forall a b, a ∈ reg_addrs 0xD0000000 -> b ∈ reg_addrs 0xD0000000 -> a ≠ b ->
               8 <= u32 (a - b) <= 2 ^ 32 - 8).
Proof.
  apply (led_isolation 0xD0000000 st_ready 1 2 "3");
    [vm_compute; reflexivity | lia | lia | lia].
Defined.

(** A write of a parsed value, read back: the two low bits of the value. *)
Lemma drive_then_get base st id v :
  registry base st -> (1 <= id <= 5)%nat ->
  fst (get id (drive_post (green_addr base (id - 1)) (red_addr base (id - 1)) v st))
  = Done (sprintf_d (Z.land v 3)).
Proof.
  intros Hreg Hid.
  destruct (table_distinct base (id - 1) (id - 1)) as [Hgr _]; [lia..|].
  rewrite (get_eq base) by assumption. cbn [fst drive_post mem].
  rewrite drive_mem_green, drive_mem_red by assumption.
  unfold decode. rewrite green_word_bit0, red_word_bit0, land_3.
  destruct (Z.testbit v 0), (Z.testbit v 1); reflexivity.
Qed.

(** C2. Set/get round trip: for every LedId in 1..5 and every state [s] in
    0..3 (OFF, GREEN, RED, BOTH), writing the digit of [s] succeeds and the
    next read returns the digit of [s]; the write leaves bit 0 of the green
    register at the complement of bit 0 of [s] (active-low) and bit 0 of
    the red register at bit 1 of [s] (active-high), and a read always
    returns (green_bit XOR 1) OR (red_bit << 1) of the two register words. *)
Theorem set_get_roundtrip base st id s :
  registry base st -> (1 <= id <= 5)%nat -> 0 <= s <= 3 ->
  (exists st1,
     set id (sprintf_d s) st = (Done 1, st1) /\
     fst (get id st1) = Done (sprintf_d s) /\
     Z.testbit (Io.peek (mem st1) (green_addr base (id - 1))) 0 = negb (Z.testbit s 0) /\
     Z.testbit (Io.peek (mem st1) (red_addr base (id - 1))) 0 = Z.testbit s 1) /\
  fst (get id st)
  = Done (sprintf_d
            (Z.lor (Z.lxor (Z.land (Io.peek (mem st) (green_addr base (id - 1))) 0x1) 0x1)
                   (Z.shiftl (Z.land (Io.peek (mem st) (red_addr base (id - 1))) 0x1) 1))).
Proof.
  intros Hreg Hid Hs. split.
  - destruct (table_distinct base (id - 1) (id - 1)) as [Hgr _]; [lia..|].
    exists (drive_post (green_addr base (id - 1)) (red_addr base (id - 1)) s st).
    split; [|split; [|split]].
    + unfold set. rewrite (dev_write_eq base) by (assumption || lia).
      assert (Hc : s = 0 \/ s = 1 \/ s = 2 \/ s = 3) by lia.
      destruct Hc as [-> | [-> | [-> | ->]]]; reflexivity.
    + rewrite drive_then_get by assumption. do 2 f_equal.
      assert (Hc : s = 0 \/ s = 1 \/ s = 2 \/ s = 3) by lia.
      destruct Hc as [-> | [-> | [-> | ->]]]; reflexivity.
    + cbn [drive_post mem]. rewrite drive_mem_green by assumption.
      apply green_word_bit0.
    + cbn [drive_post mem]. rewrite drive_mem_red by assumption.
      apply red_word_bit0.
  - rewrite (get_eq base) by assumption. rewrite decode_expr. reflexivity.
Qed.

Lemma set_get_roundtrip_witness :
  (exists st1,
     set 4 (sprintf_d 2) st_ready = (Done 1, st1) /\
     fst (get 4 st1) = Done (sprintf_d 2) /\
     Z.testbit (Io.peek (mem st1) (green_addr 0xD0000000 (4 - 1))) 0 = negb (Z.testbit 2 0) /\
     Z.testbit (Io.peek (mem st1) (red_addr 0xD0000000 (4 - 1))) 0 = Z.testbit 2 1) /\
  fst (get 4 st_ready)
  = Done (sprintf_d
            (Z.lor (Z.lxor (Z.land (Io.peek (mem st_ready) (green_addr 0xD0000000 (4 - 1))) 0x1) 0x1)
                   (Z.shiftl (Z.land (Io.peek (mem st_ready) (red_addr 0xD0000000 (4 - 1))) 0x1) 1))).
Proof.
  apply (set_get_roundtrip 0xD0000000 st_ready 4 2);
    [vm_compute; reflexivity | lia | lia].
Defined.

(** C3. read_base writes the word 0x80000000 | (bus<<16) | (dev<<11) |
    (fun<<8) | offset, with bus 0, device 0x0d and function 0, to the
    configuration-address port 0xcf8, then reads a 32-bit value from the
    configuration-data port 0xcfc; it returns 0xD0000000 when that value is
    0xffffffff and the value with its low 12 bits cleared otherwise. It
    always returns: the result is a 4KB-aligned 32-bit address, and nothing
    but the two port accesses happens. *)
Theorem read_base_resolves hw offset st :
  let w := Z.lor (Z.lor (Z.lor (Z.lor 0x80000000 (Z.shiftl 0 16)) (Z.shiftl 0x0d 11))
                        (Z.shiftl 0 8))
                 (u8 offset) in
  let val := u32 (pci_config hw w) in
  let r := if val =? 0xffffffff then 0xD0000000 else Z.land val 0xfffff000 in
  exists st',
    read_base hw offset st = (Done r, st') /\
    trace st' = trace st ++ [Outl w PCI_CFG_CTRL; Inl PCI_CFG_DATA val] /\
    mem st' = mem st /\ mapped st' = mapped st /\ hddleds st' = hddleds st /\
    0 <= r < 2 ^ 32 /\ r mod 2 ^ 12 = 0.
Proof.
  intros w val r. exists (probed hw offset st).
  split; [apply read_base_eq|].
  split; [unfold probed; kstate_fields; rewrite <- app_assoc; reflexivity|].
  do 3 (split; [reflexivity|]).
  split; [apply resolve_range | apply resolve_aligned].
Qed.

(** On a board answering 0xFED0100C, the probe of hddled_init (offset 0x10)
    writes 0x80006810 and resolves to 0xFED01000. *)
Lemma read_base_resolves_witness :
  exists st',
    read_base hw_probe 0x10 (boot mem_power_on) = (Done 0xFED01000, st') /\
    trace st' = [Outl 0x80006810 PCI_CFG_CTRL; Inl PCI_CFG_DATA 0xFED0100C].
Proof.
  destruct (read_base_resolves hw_probe 0x10 (boot mem_power_on))
    as (st' & Hrun & Htr & _).
  exists st'. split; [exact Hrun | exact Htr].
Defined.

(** C4. Register address table: construction creates exactly five LED
    handles, and for each index [i] in 0..4 the green register address is
    base + 0xC505B8 + i * 0x8 and the red one is the green address + 0x28,
    in 32-bit unsigned arithmetic (and as plain integers when the table
    ends below 2^32); [base] is the address read_base resolved, and the
    ten registers are the regions that get mapped. *)
Theorem register_table hw st :
  bring_up_ok hw -> length (hddleds st) = 5%nat ->
  exists st',
    hddled_init hw st = (Done 0, st') /\
    length (hddleds st') = 5%nat /\
    registry (resolved_base hw) st' /\
    mapped st' = rev (reg_addrs (resolved_base hw)) ++ mapped st /\
    forall i, (i < 5)%nat ->
      exists g r,
        hddleds st' !! i = Some (Some (Hddled (Some g) (Some r))) /\
        g = u32 (resolved_base hw + 0xC505B8 + Z.of_nat i * 0x8) /\
        r = u32 (g + 0x28) /\
        (resolved_base hw + 0xC50600 < 2 ^ 32 ->
         g = resolved_base hw + 0xC505B8 + Z.of_nat i * 0x8 /\ r = g + 0x28).
Proof.
  intros Hok Hlen. eexists. split; [by apply hddled_init_ok|].
  assert (Hreg : registry (resolved_base hw)
                   (loop_post 5 0 0xC505B8 (resolved_base hw) (registered hw st))).
  { unfold registry. rewrite loop_post_hddleds. by apply loop_slots_table. }
  split; [rewrite Hreg; reflexivity|]. split; [exact Hreg|]. split.
  - rewrite loop_post_mapped, loop_expect_table, off_table_addrs. reflexivity.
  - intros i Hi. eexists _, _. split; [rewrite Hreg; by apply led_table_lookup|].
    split; [reflexivity|]. split; [reflexivity|]. intros Hfit.
    pose proof (resolve_range (pci_config hw 0x80006810)) as Hb.
    change (resolve (u32 (pci_config hw 0x80006810))) with (resolved_base hw) in Hb.
    assert (Eg : green_addr (resolved_base hw) i
                 = resolved_base hw + 0xC505B8 + Z.of_nat i * 0x8).
    { unfold green_addr. apply u32_small. lia. }
    split; [exact Eg|]. unfold red_addr. rewrite Eg. apply u32_small. lia.
Qed.

Lemma register_table_witness :
  exists st',
    hddled_init hw_ref (boot mem_power_on) = (Done 0, st') /\
    hddleds st' !! 2%nat
    = Some (Some (Hddled (Some 0xD0C505C8) (Some 0xD0C505F0))).
Proof.
  destruct (register_table hw_ref (boot mem_power_on)) as (st' & Hrun & _ & _ & _ & Htab).
  - split; [vm_compute; discriminate | split; [reflexivity | intros; reflexivity]].
  - reflexivity.
  - exists st'. split; [exact Hrun|].
    destruct (Htab 2%nat) as (g & r & Hslot & Hg & Hr & Hfit); [lia|].
    destruct Hfit as [Eg Er]; [vm_compute; reflexivity|].
    rewrite Hslot, Er, Eg. reflexivity.
Defined.

Lemma off_table_elem base i :
  (i < 5)%nat ->
  (green_addr base i, true) ∈ off_table base /\ (red_addr base i, false) ∈ off_table base.
Proof.
  intros Hi. unfold off_table.
  do 5 (destruct i as [|i]; [cbn; set_solver|]). lia.
Qed.

(** C5. Post-construction OFF: after construction, and before any write,
    a read of every LedId in 1..5 returns the digit of OFF; bit 0 of its
    green register is 1 and bit 0 of its red register is 0, whatever the
    registers held before. The register writes of construction are, in
    order, one write per register of the table, each different from the
    others, green with bit 0 set and red with bit 0 cleared. *)
Theorem construction_forces_off hw st id :
  bring_up_ok hw -> length (hddleds st) = 5%nat -> (1 <= id <= 5)%nat ->
  exists st' tr,
    hddled_init hw st = (Done 0, st') /\
    fst (get id st') = Done (sprintf_d OFF) /\
    Z.testbit (Io.peek (mem st') (green_addr (resolved_base hw) (id - 1))) 0 = true /\
    Z.testbit (Io.peek (mem st') (red_addr (resolved_base hw) (id - 1))) 0 = false /\
    trace st' = trace st ++ tr /\
    Forall2 write_matches (writes tr) (off_table (resolved_base hw)) /\
    NoDup (off_table (resolved_base hw)).*1.
Proof.
  intros Hok Hlen Hid.
  set (base := resolved_base hw).
  set (st' := loop_post 5 0 0xC505B8 base (registered hw st)).
  assert (Hreg : registry base st').
  { unfold registry, st'. rewrite loop_post_hddleds. by apply loop_slots_table. }
  assert (Hnd : NoDup (loop_expect 5 0xC505B8 base).*1).
  { rewrite loop_expect_table, off_table_addrs. apply reg_addrs_NoDup. }
  destruct (off_table_elem base (id - 1)) as [Hgin Hrin]; [lia|].
  assert (Hg : Z.testbit (Io.peek (mem st') (green_addr base (id - 1))) 0 = true).
  { unfold st'. rewrite loop_post_mem. apply loop_mem_bit0; [exact Hnd|].
    rewrite loop_expect_table. exact Hgin. }
  assert (Hr : Z.testbit (Io.peek (mem st') (red_addr base (id - 1))) 0 = false).
  { unfold st'. rewrite loop_post_mem. apply loop_mem_bit0; [exact Hnd|].
    rewrite loop_expect_table. exact Hrin. }
  exists st', ([Outl 0x80006810 PCI_CFG_CTRL; Inl PCI_CFG_DATA (probe hw)]
               ++ loop_trace 5 0xC505B8 base (mem st)).
  split; [by apply hddled_init_ok|].
  split; [|split; [exact Hg|split; [exact Hr|split; [|split]]]].
  - rewrite (get_eq base) by assumption. cbn [fst]. unfold decode.
    rewrite Hg, Hr. reflexivity.
  - unfold st'. rewrite loop_post_trace. unfold registered, probed.
    kstate_fields. rewrite <- !app_assoc. reflexivity.
  - unfold writes. rewrite omap_app. cbn [omap list_omap app].
    rewrite <- loop_expect_table. apply loop_trace_writes.
  - rewrite <- loop_expect_table. exact Hnd.
Qed.

Lemma construction_forces_off_witness :
  exists st' tr,
    hddled_init hw_ref (boot mem_power_on) = (Done 0, st') /\
    fst (get 2 st') = Done (sprintf_d OFF) /\
    Z.testbit (Io.peek (mem st') (green_addr (resolved_base hw_ref) (2 - 1))) 0 = true /\
    Z.testbit (Io.peek (mem st') (red_addr (resolved_base hw_ref) (2 - 1))) 0 = false /\
    trace st' = trace (boot mem_power_on) ++ tr /\
    Forall2 write_matches (writes tr) (off_table (resolved_base hw_ref)) /\
    NoDup (off_table (resolved_base hw_ref)).*1.
Proof.
  apply (construction_forces_off hw_ref (boot mem_power_on) 2).
  - split; [vm_compute; discriminate | split; [reflexivity | intros; reflexivity]].
  - reflexivity.
  - lia.
Defined.

(** C6. Bit-write frame: each register update the driver performs,
    [*p |= 0x1] and [*p &= 0xfffffffe], leaves bits 1 and above of every
    register word as they were; so does a whole write of any payload to a
    LedId in 1..5, and so does construction with its forced-OFF writes, for
    every content of the registers before. *)
Theorem bit_write_frame hw base st st0 id payload p a k :
  1 <= k ->
  registry base st -> (1 <= id <= 5)%nat ->
  bring_up_ok hw -> length (hddleds st0) = 5%nat ->
  Z.testbit (Io.peek (mem (snd (Io.or_assign (Some p) 0x1 st))) a) k
  = Z.testbit (Io.peek (mem st) a) k /\
  Z.testbit (Io.peek (mem (snd (Io.and_assign (Some p) 0xfffffffe st))) a) k
  = Z.testbit (Io.peek (mem st) a) k /\
  Z.testbit (Io.peek (mem (snd (set id payload st))) a) k
  = Z.testbit (Io.peek (mem st) a) k /\
  Z.testbit (Io.peek (mem (snd (hddled_init hw st0))) a) k
  = Z.testbit (Io.peek (mem st0) a) k.
Proof.
  intros Hk Hreg Hid Hok Hlen. split; [|split; [|split]].
  - cbn [Io.or_assign Io.load Io.store kbind snd mem log with_mem].
    apply insert_keeps_bit. rewrite or1_bits, peek_u32 by assumption. reflexivity.
  - cbn [Io.and_assign Io.load Io.store kbind snd mem log with_mem].
    apply insert_keeps_bit. rewrite and_fe_bits, peek_u32 by assumption. reflexivity.
  - unfold set. rewrite (dev_write_eq base) by (assumption || lia).
    destruct (kstrtoint_from_user _ _) as [err|val]; [reflexivity|].
    cbn [snd drive_post mem]. by apply drive_mem_bits.
  - rewrite hddled_init_ok by assumption. cbn [snd].
    rewrite loop_post_mem. rewrite loop_mem_bits by assumption. reflexivity.
Qed.

Lemma bit_write_frame_witness :
  Z.testbit (Io.peek (mem (snd (Io.or_assign (Some 0xD0C505C0) 0x1 st_ready))) 0xD0C505C0) 5
  = Z.testbit (Io.peek (mem st_ready) 0xD0C505C0) 5 /\
  Z.testbit (Io.peek (mem (snd (Io.and_assign (Some 0xD0C505C0) 0xfffffffe st_ready))) 0xD0C505C0) 5
  = Z.testbit (Io.peek (mem st_ready) 0xD0C505C0) 5 /\
  Z.testbit (Io.peek (mem (snd (set 2 "3" st_ready))) 0xD0C505C0) 5
  = Z.testbit (Io.peek (mem st_ready) 0xD0C505C0) 5 /\
  Z.testbit (Io.peek (mem (snd (hddled_init hw_ref (boot mem_power_on)))) 0xD0C505C0) 5
  = Z.testbit (Io.peek (mem (boot mem_power_on)) 0xD0C505C0) 5.
Proof.
  apply (bit_write_frame hw_ref 0xD0000000 st_ready (boot mem_power_on) 2 "3").
  - lia.
  - vm_compute. reflexivity.
  - lia.
  - split; [vm_compute; discriminate | split; [reflexivity | intros; reflexivity]].
  - reflexivity.
Defined.

(** ** Parsing the written payload *)

Lemma _kstrtoull_err s e : _kstrtoull s = KErr e -> e = - EINVAL \/ e = - ERANGE.
Proof.
  unfold _kstrtoull. destruct (_parse_integer s 0 0) as [[res rv] rest].
  repeat case_match; intros; simplify_eq; auto.
Qed.

Lemma kstrtoint_err s e : kstrtoint s = KErr e -> e = - EINVAL \/ e = - ERANGE.
Proof.
  unfold kstrtoint, kstrtoll, kstrtoull.
  repeat case_match; intros; simplify_eq; eauto using _kstrtoull_err.
Qed.

Lemma kstrtoint_from_user_err buffer len e :
  kstrtoint_from_user buffer len = KErr e ->
  e = - EFAULT \/ e = - EINVAL \/ e = - ERANGE.
Proof.
  unfold kstrtoint_from_user. destruct (_ <? _)%nat; intros Hk.
  - simplify_eq. auto.
  - apply kstrtoint_err in Hk. tauto.
Qed.

(** A payload whose first byte is not a digit or a sign never parses. *)
Lemma non_numeric_start c rest :
  is_digit c = false -> c ≠ "+"%char -> c ≠ "-"%char ->
  kstrtoint_from_user (UBuf (String c rest)) (Z.of_nat (String.length (String c rest)))
  = KErr (- EINVAL).
Proof.
  intros Hd Hp Hm. unfold kstrtoint_from_user. cbn [ubytes String.length].
  set (n := String.length rest).
  set (count := Z.to_nat (Z.min (Z.of_nat (S n)) 34)).
  assert (Hc : (1 <= count <= S n)%nat) by lia.
  destruct (Nat.ltb_spec (S n) count) as [Hlt|_]; [lia|].
  destruct count as [|k]; [lia|]. cbn [substring].
  generalize (substring 0 k rest). intros tail.
  destruct c as [[] [] [] [] [] [] [] []];
    first [ discriminate Hd
          | exfalso; apply Hp; reflexivity
          | exfalso; apply Hm; reflexivity
          | reflexivity ].
Qed.

(** Only the two low bits of a written value reach the registers. *)
Lemma drive_post_low_bits g r v st : drive_post g r (Z.land v 3) st = drive_post g r v st.
Proof.
  assert (Eg : forall w, green_word (Z.land v 3) w = green_word v w).
  { intros w. unfold green_word. rewrite <- Z.land_assoc. reflexivity. }
  assert (Er : forall w, red_word (Z.land v 3) w = red_word v w).
  { intros w. unfold red_word. rewrite Z.shiftr_land, <- Z.land_assoc. reflexivity. }
  unfold drive_post, drive_mem, drive_events. rewrite !Eg, !Er. reflexivity.
Qed.

(** C7. Write error atomicity: when the payload does not parse
    (kstrtoint_from_user reports an error), the write on a LedId in 1..5
    returns that negative error code and the whole state is exactly what it
    was: no register of any LED is written, nothing is read from or written
    to the hardware. Every payload that starts with a byte other than a
    digit or a sign fails this way with -EINVAL, "abc" among them. *)
Theorem write_error_atomic base st id pd buffer len err :
  registry base st -> (1 <= id <= 5)%nat ->
  kstrtoint_from_user buffer len = KErr err ->
  dev_write (File (id - 1) pd) buffer len st = (Done err, st) /\
  err < 0 /\
  (forall c rest,
     is_digit c = false -> c ≠ "+"%char -> c ≠ "-"%char ->
     set id (String c rest) st = (Done (- EINVAL), st)) /\
  set id "abc" st = (Done (- EINVAL), st).
Proof.
  intros Hreg Hid Herr. split; [|split; [|split]].
  - rewrite (dev_write_eq base) by (assumption || lia). rewrite Herr. reflexivity.
  - apply kstrtoint_from_user_err in Herr. unfold EFAULT, EINVAL, ERANGE in Herr. lia.
  - intros c rest Hd Hp Hm. unfold set.
    rewrite (dev_write_eq base) by (assumption || lia).
    rewrite non_numeric_start by assumption. reflexivity.
  - unfold set. rewrite (dev_write_eq base) by (assumption || lia). reflexivity.
Qed.

Lemma write_error_atomic_witness :
  dev_write (File (3 - 1) None) (UBuf "on") 2 st_ready = (Done (- EINVAL), st_ready) /\
  - EINVAL < 0 /\
  (forall c rest,
     is_digit c = false -> c ≠ "+"%char -> c ≠ "-"%char ->
     set 3 (String c rest) st_ready = (Done (- EINVAL), st_ready)) /\
  set 3 "abc" st_ready = (Done (- EINVAL), st_ready).
Proof.
  apply (write_error_atomic 0xD0000000 st_ready 3 None (UBuf "on") 2 (- EINVAL)).
  - vm_compute. reflexivity.
  - lia.
  - vm_compute. reflexivity.
Defined.

(** C8. Out-of-range writes: for every payload that parses to an integer
    [v], the write on a LedId in 1..5 succeeds (it returns the length it was
    given) and drives the LED from bits 0 and 1 of [v] alone: the next read
    returns the digit of [v AND 3], bit 0 of [v] turns green on (green
    register bit 0 cleared), bit 1 of [v] turns red on (red register bit 0
    set), and a payload that parses to [v AND 3] leaves the same state. In
    particular after writing "7" a read returns the digit of BOTH. *)
Theorem write_low_two_bits base st id pd buffer len v :
  registry base st -> (1 <= id <= 5)%nat ->
  kstrtoint_from_user buffer len = KOk v ->
  (exists st1,
     dev_write (File (id - 1) pd) buffer len st = (Done len, st1) /\
     fst (get id st1) = Done (sprintf_d (Z.land v 3)) /\
     Z.testbit (Io.peek (mem st1) (green_addr base (id - 1))) 0 = negb (Z.testbit v 0) /\
     Z.testbit (Io.peek (mem st1) (red_addr base (id - 1))) 0 = Z.testbit v 1 /\
     forall buffer' len',
       kstrtoint_from_user buffer' len' = KOk (Z.land v 3) ->
       snd (dev_write (File (id - 1) pd) buffer' len' st) = st1) /\
  fst (get id (snd (set id "7" st))) = Done (sprintf_d BOTH).
Proof.
  intros Hreg Hid Hv.
  destruct (table_distinct base (id - 1) (id - 1)) as [Hgr _]; [lia..|].
  split.
  - exists (drive_post (green_addr base (id - 1)) (red_addr base (id - 1)) v st).
    split; [|split; [|split; [|split]]].
    + rewrite (dev_write_eq base) by (assumption || lia). rewrite Hv. reflexivity.
    + by apply drive_then_get.
    + cbn [drive_post mem]. rewrite drive_mem_green by assumption.
      apply green_word_bit0.
    + cbn [drive_post mem]. rewrite drive_mem_red by assumption.
      apply red_word_bit0.
    + intros buffer' len' Hv'.
      rewrite (dev_write_eq base) by (assumption || lia). rewrite Hv'.
      apply drive_post_low_bits.
  - unfold set. rewrite (dev_write_eq base) by (assumption || lia).
    change (kstrtoint_from_user (UBuf "7") (Z.of_nat (String.length "7"))) with (KOk 7).
    cbn [snd]. rewrite drive_then_get by assumption. reflexivity.
Qed.

Lemma write_low_two_bits_witness :
  (exists st1,
     dev_write (File (5 - 1) None) (UBuf "-3") 2 st_ready = (Done 2, st1) /\
     fst (get 5 st1) = Done (sprintf_d (Z.land (-3) 3)) /\
     Z.testbit (Io.peek (mem st1) (green_addr 0xD0000000 (5 - 1))) 0 = negb (Z.testbit (-3) 0) /\
     Z.testbit (Io.peek (mem st1) (red_addr 0xD0000000 (5 - 1))) 0 = Z.testbit (-3) 1 /\
     forall buffer' len',
       kstrtoint_from_user buffer' len' = KOk (Z.land (-3) 3) ->
       snd (dev_write (File (5 - 1) None) buffer' len' st_ready) = st1) /\
  fst (get 5 (snd (set 5 "7" st_ready))) = Done (sprintf_d BOTH).
Proof.
  apply (write_low_two_bits 0xD0000000 st_ready 5 None (UBuf "-3") 2 (-3)).
  - vm_compute. reflexivity.
  - lia.
  - vm_compute. reflexivity.
Defined.

(** ** Read sessions *)

Lemma read_again_served base st i n : forall buffer len,
  registry base st -> (i < 5)%nat ->
  read_again n (File i (Some (PrivateData true))) buffer len st
  = (Done (replicate n (0, buffer)), st).
Proof.
  induction n as [|n IH]; intros buffer len Hreg Hi; [reflexivity|].
  cbn [read_again].
  rewrite (kbind_done _ _ _ _ _ (dev_read_served base st i buffer len Hreg Hi)).
  cbn [fst snd]. rewrite (kbind_done _ _ _ _ _ (IH buffer len Hreg Hi)).
  reflexivity.
Qed.

(** C9. One-shot read session: opening a node of a LedId in 1..5 yields a
    session with [read_done = false] and touches nothing; the first read
    into a writable buffer returns 1, delivers exactly one digit among
    "0".."3", the digit of the current LED state, and sets [read_done];
    every later read on that session, however many, returns 0, delivers
    nothing and leaves the whole state (registers and access trace)
    untouched; closing and opening again gives a session with
    [read_done = false]. *)
Theorem one_shot_read base st id pd c rest len n buffer' len' :
  registry base st -> (1 <= id <= 5)%nat ->
  let fresh := File (id - 1) (Some (PrivateData false)) in
  let served := File (id - 1) (Some (PrivateData true)) in
  dev_open (File (id - 1) pd) st = (Done (0, fresh), st) /\
  (exists digit st1,
     dev_read fresh (UBuf (String c rest)) len st
     = (Done (1, served, UBuf (String digit rest)), st1) /\
     String digit EmptyString
     = sprintf_d (decode (Io.peek (mem st) (green_addr base (id - 1)))
                         (Io.peek (mem st) (red_addr base (id - 1)))) /\
     (digit = "0" \/ digit = "1" \/ digit = "2" \/ digit = "3")%char /\
     mem st1 = mem st /\
     read_again n served buffer' len' st1 = (Done (replicate n (0, buffer')), st1) /\
     (do closed <- dev_release served; dev_open (snd closed)) st1
     = (Done (0, fresh), st1)).
Proof.
  intros Hreg Hid fresh served. split; [reflexivity|].
  destruct (sprintf_state (Io.peek (mem st) (green_addr base (id - 1)))
                          (Io.peek (mem st) (red_addr base (id - 1))))
    as (digit & Hdigit & Hcases).
  exists digit, (read_post (green_addr base (id - 1)) (red_addr base (id - 1)) st).
  split; [|split; [|split; [|split; [|split]]]].
  - unfold fresh. rewrite (dev_read_first base) by (assumption || lia).
    rewrite Hdigit. reflexivity.
  - symmetry. exact Hdigit.
  - exact Hcases.
  - reflexivity.
  - apply (read_again_served base); [exact Hreg | lia].
  - reflexivity.
Qed.

Lemma one_shot_read_witness :
  let fresh := File (2 - 1) (Some (PrivateData false)) in
  let served := File (2 - 1) (Some (PrivateData true)) in
  dev_open (File (2 - 1) None) st_ready = (Done (0, fresh), st_ready) /\
  (exists digit st1,
     dev_read fresh (UBuf (String "x" "yz")) 3 st_ready
     = (Done (1, served, UBuf (String digit "yz")), st1) /\
     String digit EmptyString
     = sprintf_d (decode (Io.peek (mem st_ready) (green_addr 0xD0000000 (2 - 1)))
                         (Io.peek (mem st_ready) (red_addr 0xD0000000 (2 - 1)))) /\
     (digit = "0" \/ digit = "1" \/ digit = "2" \/ digit = "3")%char /\
     mem st1 = mem st_ready /\
     read_again 3 served (UBuf "abc") 3 st1 = (Done (replicate 3 (0, UBuf "abc")), st1) /\
     (do closed <- dev_release served; dev_open (snd closed)) st1
     = (Done (0, fresh), st1)).
Proof.
  apply (one_shot_read 0xD0000000 st_ready 2 None "x" "yz" 3 3 (UBuf "abc") 3).
  - vm_compute. reflexivity.
  - lia.
Defined.

(** ** Mappings are never released during bring-up *)

Create HintDb keeps.

Lemma keeps_same {A} (m : K A) :
  (forall st, mapped (snd (m st)) = mapped st /\ trace (snd (m st)) = trace st) ->
  keeps_mappings m.
Proof.
  intros H st. destruct (H st) as [Hm Ht]. exists [], [].
  rewrite Hm, Ht, app_nil_r. done.
Qed.

Lemma keeps_kret {A} (a : A) : keeps_mappings (kret a).
Proof. apply keeps_same. done. Qed.

Lemma keeps_kbind {A B} (m : K A) (f : A -> K B) :
  keeps_mappings m -> (forall a, keeps_mappings (f a)) -> keeps_mappings (kbind m f).
Proof.
  intros Hm Hf st. unfold kbind.
  destruct (Hm st) as (l1 & tr1 & Hl1 & Ht1 & Hu1).
  destruct (m st) as [[a|] st1]; cbn [snd] in *.
  - destruct (Hf a st1) as (l2 & tr2 & Hl2 & Ht2 & Hu2).
    exists (l2 ++ l1), (tr1 ++ tr2).
    rewrite Hl2, Ht2, Hl1, Ht1, <- !app_assoc.
    unfold unmaps in *. rewrite omap_app, Hu1, Hu2. done.
  - exists l1, tr1. done.
Qed.

Lemma keeps_if {A} (b : bool) (m1 m2 : K A) :
  keeps_mappings m1 -> keeps_mappings m2 -> keeps_mappings (if b then m1 else m2).
Proof. destruct b; done. Qed.

Lemma keeps_logged {A} (m : K A) (e : event) (a : A) (f : kstate -> kstate) :
  (forall st, m st = (Done a, log e (f st))) ->
  (forall st, mapped (f st) = mapped st /\ trace (f st) = trace st) ->
  unmaps [e] = [] ->
  keeps_mappings m.
Proof.
  intros Hm Hf He st. rewrite Hm. destruct (Hf st) as [Hmap Htr].
  exists [], [e]. cbn [snd log mapped trace]. rewrite Hmap, Htr. done.
Qed.

Lemma keeps_outl v port : keeps_mappings (Io.outl v port).
Proof.
  apply (keeps_logged _ (Outl v port) tt
           (fun st => if port =? PCI_CFG_CTRL then with_cfg_ctrl v st else st));
    [done| |done].
  intros st. destruct (port =? PCI_CFG_CTRL); done.
Qed.

Lemma keeps_inl hw port : keeps_mappings (Io.inl hw port).
Proof.
  intros st. exists [], [Inl port (if port =? PCI_CFG_DATA
                                    then u32 (pci_config hw (cfg_ctrl st))
                                    else 0xffffffff)].
  done.
Qed.

Lemma keeps_ioremap hw addr size : keeps_mappings (Io.ioremap hw addr size).
Proof.
  intros st. unfold Io.ioremap. destruct (ioremap_ok hw addr).
  - exists [addr], [Ioremap addr true]. done.
  - exists [], [Ioremap addr false]. done.
Qed.

Lemma keeps_load p : keeps_mappings (Io.load p).
Proof.
  intros st. destruct p as [a|].
  - exists [], [MmioRd a (Io.peek (mem st) a)]. done.
  - exists [], []. cbn. by rewrite app_nil_r.
Qed.

Lemma keeps_store p v : keeps_mappings (Io.store p v).
Proof.
  intros st. destruct p as [a|].
  - exists [], [MmioWr a (u32 v)]. done.
  - exists [], []. cbn. by rewrite app_nil_r.
Qed.

Lemma keeps_field f led : keeps_mappings (field f led).
Proof. apply keeps_same. intros st. destruct led; done. Qed.

Lemma keeps_hddleds_get i : keeps_mappings (hddleds_get i).
Proof. apply keeps_same. intros st. unfold hddleds_get. destruct (hddleds st !! i); done. Qed.

Lemma keeps_hddleds_set i slot : keeps_mappings (hddleds_set i slot).
Proof. apply keeps_same. intros st. unfold hddleds_set. destruct (_ <? _)%nat; done. Qed.

#[local] Hint Resolve keeps_kret keeps_outl keeps_inl keeps_ioremap keeps_load
  keeps_store keeps_field keeps_hddleds_get keeps_hddleds_set : keeps.

Ltac keeps_step :=
  repeat first
    [ apply keeps_kbind; [|intros ?]
    | apply keeps_if
    | solve [auto with keeps] ].

Lemma keeps_or_assign p bits : keeps_mappings (Io.or_assign p bits).
Proof. unfold Io.or_assign. keeps_step. Qed.

Lemma keeps_and_assign p bits : keeps_mappings (Io.and_assign p bits).
Proof. unfold Io.and_assign. keeps_step. Qed.

#[local] Hint Resolve keeps_or_assign keeps_and_assign : keeps.

Lemma keeps_read_base hw offset : keeps_mappings (read_base hw offset).
Proof. unfold read_base. keeps_step. Qed.

Lemma keeps_create_hddled hw addr : keeps_mappings (create_hddled hw addr).
Proof. unfold create_hddled. keeps_step. Qed.

Lemma keeps_create_devices n : forall i, keeps_mappings (create_devices n i).
Proof.
  induction n as [|n IH]; intros i; cbn [create_devices]; [auto with keeps|].
  apply keeps_kbind; [|intros _; apply IH]. apply keeps_same. done.
Qed.

#[local] Hint Resolve keeps_read_base keeps_create_hddled keeps_create_devices : keeps.

Lemma keeps_create_hddleds hw n : forall i offset base,
  keeps_mappings (create_hddleds hw n i offset base).
Proof.
  induction n as [|n IH]; intros i offset base; cbn [create_hddleds].
  - auto with keeps.
  - keeps_step; apply IH.
Qed.

Lemma keeps_hddled_init hw : keeps_mappings (hddled_init hw).
Proof.
  unfold hddled_init.
  apply keeps_kbind; [auto with keeps|intros base].
  apply keeps_kbind; [by apply keeps_same|intros major].
  apply keeps_kbind; [by apply keeps_same|intros _].
  apply keeps_if; [auto with keeps|].
  apply keeps_kbind.
  { apply keeps_same. intros st. unfold class_create. destruct (class_err hw); done. }
  intros [e|].
  - apply keeps_kbind; [by apply keeps_same|intros _]. auto with keeps.
  - apply keeps_kbind; [auto with keeps|intros _].
    apply keeps_kbind; [apply keeps_create_hddleds|intros _]. auto with keeps.
Qed.

(** C10 fails as stated: on a board where mapping the green register of
    LED 3 fails, bring-up returns no error. It maps the registers of LEDs 1
    and 2 and the red register of LED 3, stores the NULL pointer unchecked
    and faults when it forces LED 3 off, with the five regions still
    mapped. *)
Lemma map_failure_not_rolled_back :
  ~ all_or_nothing hw_map_fail (boot mem_power_on) /\
  fst (hddled_init hw_map_fail (boot mem_power_on)) = Oops /\
  mapped (snd (hddled_init hw_map_fail (boot mem_power_on)))
  = [0xD0C505F0; 0xD0C505E8; 0xD0C505C0; 0xD0C505E0; 0xD0C505B8] /\
  hddleds (snd (hddled_init hw_map_fail (boot mem_power_on))) !! 2%nat
  = Some (Some (Hddled None (Some 0xD0C505F0))).
Proof.
  split; [|split; [|split]]; [|vm_compute; reflexivity..].
  intros Hclaim. destruct Hclaim as (err & st' & Hrun & _).
  - exists 0xD0C505C8. split; [|reflexivity].
    apply (list_elem_of_lookup_2 _ 4%nat). reflexivity.
  - vm_compute in Hrun. discriminate Hrun.
Qed.

(** C10, amended. Construction does not check its mapping operations and
    has no mapping error: whatever the platform answers, and however
    bring-up ends, it unmaps nothing, so every region mapped before or
    during bring-up is still mapped after it. The only errors it returns
    are the negative major number of register_chrdev and the error of
    class_create, both before any region is mapped (after the latter the
    registration is undone). When every bring-up operation succeeds it
    returns 0 with exactly the ten registers of the table mapped. *)
Theorem construction_without_rollback hw st :
  (exists l tr,
     mapped (snd (hddled_init hw st)) = l ++ mapped st /\
     trace (snd (hddled_init hw st)) = trace st ++ tr /\
     unmaps tr = []) /\
  (forall err st',
     hddled_init hw st = (Done err, st') -> err ≠ 0 ->
     mapped st' = mapped st /\
     (err = chrdev_major hw /\ err < 0 \/
      class_err hw = Some err /\ hddledClass st' = false)) /\
  (bring_up_ok hw -> length (hddleds st) = 5%nat ->
   exists st',
     hddled_init hw st = (Done 0, st') /\
     mapped st' = rev (reg_addrs (resolved_base hw)) ++ mapped st).
Proof.
  split; [apply keeps_hddled_init|split].
  - intros err st'. unfold hddled_init.
    rewrite (kbind_done _ _ _ _ _ (read_base_eq hw 0x10 st)).
    unfold register_chrdev at 1. unfold kbind at 1. unfold kbind at 1.
    destruct (Z.ltb_spec (chrdev_major hw) 0) as [Hneg|Hpos].
    + intros [= <- <-] _. split; [reflexivity|]. left. done.
    + unfold class_create, kbind at 1. destruct (class_err hw) as [e|].
      * intros [= <- <-] _. split; [reflexivity|]. right. done.
      * rewrite (kbind_done _ _ _ _ _ (create_devices_eq 5 0 _)).
        unfold kbind, kret.
        destruct (create_hddleds hw 5 0 _ _ _) as [[[]|] st3];
          intros [= <- <-] Hne; done.
  - intros Hok Hlen. eexists. split; [by apply hddled_init_ok|].
    rewrite loop_post_mapped, loop_expect_table, off_table_addrs. reflexivity.
Qed.

Lemma construction_without_rollback_witness :
  exists st',
    hddled_init hw_ref (boot mem_power_on) = (Done 0, st') /\
    mapped st' = rev (reg_addrs (resolved_base hw_ref)) ++ mapped (boot mem_power_on).
Proof.
  apply (construction_without_rollback hw_ref (boot mem_power_on)).
  - split; [vm_compute; discriminate | split; [reflexivity | intros; reflexivity]].
  - reflexivity.
Defined.

(** * Further properties of the driver *)

(** ** Module unload *)

Lemma filter_all {A} (P : A -> Prop) `{!forall x, Decision (P x)} (l : list A) :
  (forall x, x ∈ l -> P x) -> filter P l = l.
Proof.
  induction l as [|x l IH]; intros Hl; [reflexivity|].
  rewrite filter_cons_True by (apply Hl; left).
  f_equal. apply IH. intros y Hy. apply Hl. by right.
Qed.

Lemma unmap_list_elem addrs : forall l a,
  a ∈ unmap_list addrs l <-> a ∈ l /\ a ∉ addrs.
Proof.
  induction addrs as [|b addrs IH]; intros l a; cbn [unmap_list foldl].
  - split; [intros H; split; [done|apply not_elem_of_nil] | tauto].
  - fold (unmap_list addrs (filter (fun c => negb (c =? b)) l)).
    rewrite IH, list_elem_of_filter, not_elem_of_cons, negb_True, Is_true_true, Z.eqb_eq.
    tauto.
Qed.

Lemma unmap_list_gone addrs l : (forall a, a ∈ l -> a ∈ addrs) -> unmap_list addrs l = [].
Proof.
  intros H. destruct (unmap_list addrs l) as [|a l'] eqn:E; [reflexivity|].
  assert (Ha : a ∈ unmap_list addrs l) by (rewrite E; left).
  apply unmap_list_elem in Ha as [Hin Hout]. destruct Hout. by apply H.
Qed.

Lemma unmap_list_app addrs : forall l1 l2,
  unmap_list addrs (l1 ++ l2) = unmap_list addrs l1 ++ unmap_list addrs l2.
Proof.
  induction addrs as [|b addrs IH]; intros l1 l2; cbn [unmap_list foldl]; [reflexivity|].
  rewrite filter_app. apply IH.
Qed.

Lemma unmap_list_keep addrs : forall l,
  (forall a, a ∈ l -> a ∉ addrs) -> unmap_list addrs l = l.
Proof.
  induction addrs as [|b addrs IH]; intros l H; cbn [unmap_list foldl]; [reflexivity|].
  rewrite filter_all.
  - apply IH. intros a Ha. specialize (H a Ha). by apply not_elem_of_cons in H as [_ H].
  - intros a Ha. specialize (H a Ha). apply not_elem_of_cons in H as [H _].
    apply negb_True. rewrite Is_true_true, Z.eqb_eq. exact H.
Qed.

(** One pass of the teardown loop over a filled slot. *)
Lemma destroy_pass n minor g r st :
  hddleds st !! minor = Some (Some (Hddled (Some g) (Some r))) ->
  destroy_hddleds (S n) minor st
  = destroy_hddleds n (S minor) (unpass_post minor g r st).
Proof.
  intros Hslot. apply lookup_lt_Some in Hslot as Hlt. apply Nat.ltb_lt in Hlt.
  cbn [destroy_hddleds]. unfold kbind at 1. unfold kbind at 1.
  unfold hddleds_get at 1. kstate_fields. rewrite Hslot.
  unfold kbind at 1, field at 1. cbn [green].
  unfold kbind at 1, Io.iounmap at 1.
  unfold kbind at 1, field at 1. cbn [red].
  unfold kbind at 1, Io.iounmap at 1.
  unfold kbind at 1, hddleds_set at 1. kstate_fields. rewrite Hlt.
  f_equal. apply kstate_eq; kstate_fields; try reflexivity.
  rewrite <- app_assoc. reflexivity.
Qed.

Lemma destroy_ok base n : forall minor st,
  (forall k, (k < n)%nat ->
     hddleds st !! (minor + k)%nat = Some (Some (led_handle base (minor + k)))) ->
  destroy_hddleds n minor st = (Done tt, exit_post n minor base st).
Proof.
  induction n as [|n IH]; intros minor st Hslots; [reflexivity|].
  rewrite (destroy_pass n minor (green_addr base minor) (red_addr base minor)).
  - cbn [exit_post]. apply IH. intros k Hk. cbn [unpass_post hddleds].
    rewrite list_lookup_insert_ne by lia.
    replace (S minor + k)%nat with (minor + S k)%nat by lia. apply Hslots. lia.
  - specialize (Hslots 0%nat ltac:(lia)). rewrite Nat.add_0_r in Hslots. exact Hslots.
Qed.

Lemma exit_post_fields base st :
  registry base st ->
  mem (exit_post 5 0 base st) = mem st /\
  cfg_ctrl (exit_post 5 0 base st) = cfg_ctrl st /\
  majorNumber (exit_post 5 0 base st) = majorNumber st /\
  hddleds (exit_post 5 0 base st) = replicate 5 None /\
  mapped (exit_post 5 0 base st) = unmap_list (reg_addrs base) (mapped st) /\
  trace (exit_post 5 0 base st) = trace st ++ (Iounmap <$> reg_addrs base).
Proof.
  intros Hreg. cbn [exit_post unpass_post mem cfg_ctrl majorNumber hddleds mapped trace].
  repeat split; try reflexivity.
  - rewrite Hreg. reflexivity.
  - rewrite <- !app_assoc. reflexivity.
Qed.

Lemma hddled_exit_eq base st :
  registry base st ->
  hddled_exit st = (Done tt, with_class false (exit_post 5 0 base st)).
Proof.
  intros Hreg. unfold hddled_exit.
  assert (Hslots : forall k, (k < 5)%nat ->
            hddleds st !! (0 + k)%nat = Some (Some (led_handle base (0 + k)))).
  { intros k Hk. rewrite Hreg. cbn [Nat.add]. by apply led_table_lookup. }
  rewrite (kbind_done _ _ _ _ _ (destroy_ok base 5 0 st Hslots)). reflexivity.
Qed.





(** X2. Load then unload: when bring-up meets no failure and none of the
    table registers was mapped before, unloading right after loading
    leaves exactly the regions that were mapped before, all slots NULL,
    and every LED off (green bit 0 set, red bit 0 cleared), since unload
    writes no register. *)
Theorem load_unload_round_trip hw st id :
  bring_up_ok hw -> length (hddleds st) = 5%nat ->
  (forall a, a ∈ mapped st -> a ∉ reg_addrs (resolved_base hw)) ->
  (1 <= id <= 5)%nat ->
  exists st1 st2,
    hddled_init hw st = (Done 0, st1) /\
    hddled_exit st1 = (Done tt, st2) /\
    mapped st2 = mapped st /\
    hddleds st2 = replicate 5 None /\
    Z.testbit (Io.peek (mem st2) (green_addr (resolved_base hw) (id - 1))) 0 = true /\
    Z.testbit (Io.peek (mem st2) (red_addr (resolved_base hw) (id - 1))) 0 = false.
Proof.
  intros Hok Hlen Hfree Hid.
  set (base := resolved_base hw).
  set (st1 := loop_post 5 0 0xC505B8 base (registered hw st)).
  assert (Hreg : registry base st1).
  { unfold registry, st1. rewrite loop_post_hddleds. by apply loop_slots_table. }
  destruct (exit_post_fields base st1 Hreg) as (Hm & _ & _ & Hs & Hmap & _).
  exists st1, (with_class false (exit_post 5 0 base st1)).
  split; [by apply hddled_init_ok|]. split; [by apply hddled_exit_eq|].
  kstate_fields. rewrite Hm.
  assert (Hnd : NoDup (loop_expect 5 0xC505B8 base).*1).
  { rewrite loop_expect_table, off_table_addrs. apply reg_addrs_NoDup. }
  destruct (off_table_elem base (id - 1)) as [Hgin Hrin]; [lia|].
  split; [|split; [exact Hs|split]].
  - rewrite Hmap. unfold st1.
    rewrite loop_post_mapped, loop_expect_table, off_table_addrs, unmap_list_app.
    rewrite unmap_list_gone, unmap_list_keep; [reflexivity|exact Hfree|].
    intros a Ha. apply list_elem_of_In. apply list_elem_of_In in Ha.
    apply in_rev. exact Ha.
  - unfold st1. rewrite loop_post_mem. apply loop_mem_bit0; [exact Hnd|].
    rewrite loop_expect_table. exact Hgin.
  - unfold st1. rewrite loop_post_mem. apply loop_mem_bit0; [exact Hnd|].
    rewrite loop_expect_table. exact Hrin.
Qed.

Lemma load_unload_round_trip_witness :
  exists st1 st2,
    hddled_init hw_ref (boot mem_power_on) = (Done 0, st1) /\
    hddled_exit st1 = (Done tt, st2) /\
    mapped st2 = mapped (boot mem_power_on) /\
    hddleds st2 = replicate 5 None /\
    Z.testbit (Io.peek (mem st2) (green_addr (resolved_base hw_ref) (2 - 1))) 0 = true /\
    Z.testbit (Io.peek (mem st2) (red_addr (resolved_base hw_ref) (2 - 1))) 0 = false.
Proof.
  apply (load_unload_round_trip hw_ref (boot mem_power_on) 2).
  - split; [vm_compute; discriminate | split; [reflexivity | intros; reflexivity]].
  - reflexivity.
  - intros a Ha. inversion Ha.
  - lia.
Defined.

(** Teardown on a state whose first slot is NULL. *)
Lemma hddled_exit_null st :
  hddleds st !! 0%nat = Some None ->
  hddled_exit st = (Oops, with_devices (<[0%nat := None]> (hddledDevices st)) st).
Proof.
  intros Hslot. unfold hddled_exit. cbn [destroy_hddleds].
  unfold kbind at 1. unfold kbind at 1. unfold kbind at 1.
  unfold hddleds_get at 1. kstate_fields. rewrite Hslot. reflexivity.
Qed.

(** X3. Unload is not repeatable: a second hddled_exit on the state the
    first one left faults on the NULL slot of LED 1 before it unmaps
    anything; it leaves the registers, the mappings and the trace as they
    were. *)
Theorem second_unload_faults base st :
  registry base st ->
  exists st1 st2,
    hddled_exit st = (Done tt, st1) /\
    hddled_exit st1 = (Oops, st2) /\
    mapped st2 = mapped st1 /\ trace st2 = trace st1 /\ mem st2 = mem st1 /\
    hddleds st2 = hddleds st1.
Proof.
  intros Hreg. destruct (exit_post_fields base st Hreg) as (_ & _ & _ & Hs & _ & _).
  set (st1 := with_class false (exit_post 5 0 base st)).
  exists st1, (with_devices (<[0%nat := None]> (hddledDevices st1)) st1).
  split; [by apply hddled_exit_eq|].
  split; [|repeat split].
  apply hddled_exit_null. unfold st1. kstate_fields. rewrite Hs. reflexivity.
Qed.

Lemma second_unload_faults_witness :
  exists st1 st2,
    hddled_exit st_ready = (Done tt, st1) /\
    hddled_exit st1 = (Oops, st2) /\
    mapped st2 = mapped st1 /\ trace st2 = trace st1 /\ mem st2 = mem st1 /\
    hddleds st2 = hddleds st1.
Proof.
  apply (second_unload_faults 0xD0000000 st_ready). vm_compute. reflexivity.
Defined.

(** ** File operations at the edges *)

(** X4. A slot that is NULL (as all five are between the creation of the
    device nodes and the mapping loop, and again after unload): a write
    whose payload does not parse still returns its error, a read on a
    served session still returns 0, but a write that parses and the first
    read of a session fault on the NULL slot; none of them touches a
    register or changes the state. *)
Theorem null_slot_operations st i pd buffer len :
  hddleds st !! i = Some None ->
  dev_write (File i pd) buffer len st
  = match kstrtoint_from_user buffer len with
    | KErr err => (Done err, st)
    | KOk _ => (Oops, st)
    end /\
  dev_read (File i (Some (PrivateData false))) buffer len st = (Oops, st) /\
  dev_read (File i (Some (PrivateData true))) buffer len st
  = (Done (0, File i (Some (PrivateData true)), buffer), st).
Proof.
  intros Hslot.
  assert (Hget : hddleds_get i st = (Done None, st)).
  { unfold hddleds_get. rewrite Hslot. reflexivity. }
  split; [|split].
  - unfold dev_write. cbn [f_minor]. rewrite (kbind_done _ _ _ _ _ Hget).
    destruct (kstrtoint_from_user buffer len); reflexivity.
  - unfold dev_read. cbn [f_minor]. rewrite (kbind_done _ _ _ _ _ Hget). reflexivity.
  - unfold dev_read. cbn [f_minor]. rewrite (kbind_done _ _ _ _ _ Hget). reflexivity.
Qed.

Lemma null_slot_operations_witness :
  dev_write (File 0 None) (UBuf "1") 1 (registered hw_ref (boot mem_power_on))
  = match kstrtoint_from_user (UBuf "1") 1 with
    | KErr err => (Done err, registered hw_ref (boot mem_power_on))
    | KOk _ => (Oops, registered hw_ref (boot mem_power_on))
    end /\
  dev_read (File 0 (Some (PrivateData false))) (UBuf "1") 1
           (registered hw_ref (boot mem_power_on))
  = (Oops, registered hw_ref (boot mem_power_on)) /\
  dev_read (File 0 (Some (PrivateData true))) (UBuf "1") 1
           (registered hw_ref (boot mem_power_on))
  = (Done (0, File 0 (Some (PrivateData true)), UBuf "1"),
     registered hw_ref (boot mem_power_on)).
Proof.
  apply (null_slot_operations (registered hw_ref (boot mem_power_on)) 0 None (UBuf "1") 1).
  reflexivity.
Defined.

(** The first read of a session, for any user buffer. *)
Lemma dev_read_fresh base st i buffer len :
  registry base st -> (i < 5)%nat ->
  let out := sprintf_d (decode (Io.peek (mem st) (green_addr base i))
                               (Io.peek (mem st) (red_addr base i))) in
  let c := copy_to_user buffer out 1 in
  dev_read (File i (Some (PrivateData false))) buffer len st
  = (Done (if c.1 =? 0
           then (1, File i (Some (PrivateData true)), c.2)
           else (c.1, File i (Some (PrivateData false)), c.2)),
     read_post (green_addr base i) (red_addr base i) st).
Proof.
  intros Hreg Hi out c. unfold dev_read. cbn [f_minor].
  rewrite (kbind_done _ _ _ _ _ (hddleds_get_registry base st i Hreg Hi)).
  unfold private_of at 1, kbind at 1. cbn [f_private read_done].
  unfold led_handle. rewrite (kbind_done _ _ _ _ _ (current_state_eq _ _ st)).
  subst c out.
  destruct (sprintf_state (Io.peek (mem st) (green_addr base i))
                          (Io.peek (mem st) (red_addr base i))) as [d [-> _]].
  cbn [String.length].
  destruct (copy_to_user buffer (String d EmptyString) 1) as [err b'].
  cbn [fst snd]. destruct (err =? 0); reflexivity.
Qed.

(** X5. A first read whose user buffer cannot take the byte (a faulting
    pointer, or no writable byte) still reads both registers, returns 1
    (the count of bytes not copied, the same number a successful read
    returns) and leaves the session unserved, so the next read tries
    again; whatever the buffer and the requested length, even 0, the
    first read of a session returns 1. *)
Theorem read_into_bad_buffer base st id buffer len :
  registry base st -> (1 <= id <= 5)%nat ->
  let fresh := File (id - 1) (Some (PrivateData false)) in
  let g := green_addr base (id - 1) in
  let r := red_addr base (id - 1) in
  dev_read fresh BadPtr len st = (Done (1, fresh, BadPtr), read_post g r st) /\
  dev_read fresh (UBuf "") len st = (Done (1, fresh, UBuf ""), read_post g r st) /\
  (exists f' b', dev_read fresh buffer len st = (Done (1, f', b'), read_post g r st)) /\
  trace (read_post g r st)
  = trace st ++ [MmioRd g (Io.peek (mem st) g); MmioRd r (Io.peek (mem st) r)].
Proof.
  intros Hreg Hid fresh g r.
  destruct (sprintf_state (Io.peek (mem st) g) (Io.peek (mem st) r)) as [d [Hd _]].
  split; [|split; [|split; [|reflexivity]]].
  - unfold fresh. rewrite (dev_read_fresh base) by (assumption || lia).
    fold g r. rewrite Hd. reflexivity.
  - unfold fresh. rewrite (dev_read_fresh base) by (assumption || lia).
    fold g r. rewrite Hd. reflexivity.
  - unfold fresh. rewrite (dev_read_fresh base) by (assumption || lia).
    fold g r. rewrite Hd.
    destruct buffer as [|[|c rest]]; [eexists _, _; reflexivity..|].
    rewrite copy_digit. eexists _, _. reflexivity.
Qed.

Lemma read_into_bad_buffer_witness :
  let fresh := File (3 - 1) (Some (PrivateData false)) in
  let g := green_addr 0xD0000000 (3 - 1) in
  let r := red_addr 0xD0000000 (3 - 1) in
  dev_read fresh BadPtr 0 st_ready = (Done (1, fresh, BadPtr), read_post g r st_ready) /\
  dev_read fresh (UBuf "") 0 st_ready = (Done (1, fresh, UBuf ""), read_post g r st_ready) /\
  (exists f' b', dev_read fresh (UBuf "zz") 0 st_ready = (Done (1, f', b'), read_post g r st_ready)) /\
  trace (read_post g r st_ready)
  = trace st_ready ++ [MmioRd g (Io.peek (mem st_ready) g); MmioRd r (Io.peek (mem st_ready) r)].
Proof.
  apply (read_into_bad_buffer 0xD0000000 st_ready 3 (UBuf "zz") 0).
  - vm_compute. reflexivity.
  - lia.
Defined.

(** ** What writes and construction change in the registers *)


Lemma drive_mem_explicit g r v m :
  g ≠ r ->
  drive_mem g r v m
  = <[r := red_word v (Io.peek m r)]> (<[g := green_word v (Io.peek m g)]> m).
Proof. intros Hne. unfold drive_mem. rewrite peek_insert_ne by assumption. reflexivity. Qed.

(** X6. A write that parses touches the two registers of its LED and
    nothing else: it reads and rewrites the green register, then reads and
    rewrites the red register (one read-modify-write each, in that order),
    every other register keeps its word, and the mappings, the slots and
    the latched configuration word are unchanged. *)
Theorem write_touches_own_registers base st id pd buffer len v :
  registry base st -> (1 <= id <= 5)%nat ->
  kstrtoint_from_user buffer len = KOk v ->
  let g := green_addr base (id - 1) in
  let r := red_addr base (id - 1) in
  let st' := snd (dev_write (File (id - 1) pd) buffer len st) in
  (forall a, a ≠ g -> a ≠ r -> Io.peek (mem st') a = Io.peek (mem st) a) /\
  trace st'
  = trace st ++ [MmioRd g (Io.peek (mem st) g); MmioWr g (Io.peek (mem st') g);
                 MmioRd r (Io.peek (mem st) r); MmioWr r (Io.peek (mem st') r)] /\
  mapped st' = mapped st /\ hddleds st' = hddleds st /\ cfg_ctrl st' = cfg_ctrl st.
Proof.
  intros Hreg Hid Hv g r st'.
  destruct (table_distinct base (id - 1) (id - 1)) as [Hgr _]; [lia..|].
  subst st'. rewrite (dev_write_eq base) by (assumption || lia). rewrite Hv.
  fold g r. cbn [snd drive_post mem trace mapped hddleds cfg_ctrl].
  split; [|split; [|done]].
  - intros a Hg Hr. by apply drive_mem_other.
  - unfold drive_events. fold g r in Hgr.
    rewrite drive_mem_green, drive_mem_red by exact Hgr.
    rewrite peek_insert_ne by exact Hgr. reflexivity.
Qed.

Lemma write_touches_own_registers_witness :
  let g := green_addr 0xD0000000 (2 - 1) in
  let r := red_addr 0xD0000000 (2 - 1) in
  let st' := snd (dev_write (File (2 - 1) None) (UBuf "2") 1 st_ready) in
  (forall a, a ≠ g -> a ≠ r -> Io.peek (mem st') a = Io.peek (mem st_ready) a) /\
  trace st'
  = trace st_ready ++ [MmioRd g (Io.peek (mem st_ready) g); MmioWr g (Io.peek (mem st') g);
                       MmioRd r (Io.peek (mem st_ready) r); MmioWr r (Io.peek (mem st') r)] /\
  mapped st' = mapped st_ready /\ hddleds st' = hddleds st_ready /\
  cfg_ctrl st' = cfg_ctrl st_ready.
Proof.
  apply (write_touches_own_registers 0xD0000000 st_ready 2 None (UBuf "2") 1 2).
  - vm_compute. reflexivity.
  - lia.
  - vm_compute. reflexivity.
Defined.

Lemma u32_or1_peek m a : u32 (Z.lor (Io.peek m a) 0x1) = Z.lor (Io.peek m a) 0x1.
Proof. rewrite u32_lor, peek_u32. reflexivity. Qed.

Lemma u32_and_fe_peek m a :
  u32 (Z.land (Io.peek m a) 0xfffffffe) = Z.land (Io.peek m a) 0xfffffffe.
Proof. rewrite u32_land, peek_u32. reflexivity. Qed.

(** The word each register of the passes ends with. *)
Lemma loop_mem_word n : forall offset base m a (b : bool),
  NoDup (loop_expect n offset base).*1 ->
  (a, b) ∈ loop_expect n offset base ->
  Io.peek (loop_mem n offset base m) a
  = if b then Z.lor (Io.peek m a) 0x1 else Z.land (Io.peek m a) 0xfffffffe.
Proof.
  induction n as [|n IH]; intros offset base m a b Hnd Hin.
  - cbn in Hin. inversion Hin.
  - cbn in Hnd, Hin. cbn [loop_mem].
    apply NoDup_cons in Hnd as [Hg Hnd]. apply NoDup_cons in Hnd as [Hr Hnd].
    apply not_elem_of_cons in Hg as [Hgr Hg].
    apply elem_of_cons in Hin as [Hin|Hin]; [|apply elem_of_cons in Hin as [Hin|Hin]].
    + inversion Hin; subst. rewrite loop_mem_other by exact Hg.
      rewrite off_mem_green by exact Hgr. apply u32_or1_peek.
    + inversion Hin; subst. rewrite loop_mem_other by exact Hr.
      rewrite off_mem_red by exact Hgr. apply u32_and_fe_peek.
    + rewrite (IH _ _ _ _ b) by assumption.
      assert (Ha : a ∈ (loop_expect n (offset + 8) base).*1).
      { apply (list_elem_of_fmap_2 fst) in Hin. exact Hin. }
      rewrite off_mem_other; [reflexivity| |]; intros ->; contradiction.
Qed.

(** X7. What construction does to the registers, for any content they had:
    the green register of each LED ends with its old word OR 1, the red
    register with its old word AND 0xfffffffe, and every register outside
    the table keeps its word. *)
Theorem construction_register_words hw st i :
  bring_up_ok hw -> length (hddleds st) = 5%nat -> (i < 5)%nat ->
  let base := resolved_base hw in
  let st' := snd (hddled_init hw st) in
  Io.peek (mem st') (green_addr base i) = Z.lor (Io.peek (mem st) (green_addr base i)) 0x1 /\
  Io.peek (mem st') (red_addr base i)
  = Z.land (Io.peek (mem st) (red_addr base i)) 0xfffffffe /\
  (forall a, a ∉ reg_addrs base -> Io.peek (mem st') a = Io.peek (mem st) a).
Proof.
  intros Hok Hlen Hi base st'. subst st'.
  rewrite hddled_init_ok by assumption. cbn [snd]. rewrite loop_post_mem.
  change (mem (registered hw st)) with (mem st). fold base.
  assert (Hnd : NoDup (loop_expect 5 0xC505B8 base).*1).
  { rewrite loop_expect_table, off_table_addrs. apply reg_addrs_NoDup. }
  destruct (off_table_elem base i Hi) as [Hgin Hrin].
  rewrite <- loop_expect_table in Hgin, Hrin.
  split; [|split].
  - by rewrite (loop_mem_word 5 _ _ _ _ true).
  - by rewrite (loop_mem_word 5 _ _ _ _ false).
  - intros a Ha. apply loop_mem_other.
    rewrite loop_expect_table, off_table_addrs. exact Ha.
Qed.

Lemma construction_register_words_witness :
  let base := resolved_base hw_ref in
  let st' := snd (hddled_init hw_ref (boot mem_power_on)) in
  Io.peek (mem st') (green_addr base 1) = Z.lor (Io.peek (mem (boot mem_power_on)) (green_addr base 1)) 0x1 /\
  Io.peek (mem st') (red_addr base 1)
  = Z.land (Io.peek (mem (boot mem_power_on)) (red_addr base 1)) 0xfffffffe /\
  (forall a, a ∉ reg_addrs base -> Io.peek (mem st') a = Io.peek (mem (boot mem_power_on)) a).
Proof.
  apply (construction_register_words hw_ref (boot mem_power_on) 1).
  - split; [vm_compute; discriminate | split; [reflexivity | intros; reflexivity]].
  - reflexivity.
  - lia.
Defined.

(** ** How writes compose *)

Lemma green_word_twice v1 v2 w : green_word v2 (green_word v1 w) = green_word v2 w.
Proof.
  rewrite <- (green_word_u32 v2 w), <- (green_word_u32 v2 (green_word v1 w)).
  apply Z.bits_inj'. intros k Hk. rewrite !u32_testbit. f_equal.
  destruct (Z.eq_dec k 0) as [->|Hne].
  - rewrite !green_word_bit0. reflexivity.
  - rewrite !green_word_bits by lia. rewrite green_word_u32.
    rewrite green_word_bits by lia. reflexivity.
Qed.

Lemma red_word_twice v1 v2 w : red_word v2 (red_word v1 w) = red_word v2 w.
Proof.
  rewrite <- (red_word_u32 v2 w), <- (red_word_u32 v2 (red_word v1 w)).
  apply Z.bits_inj'. intros k Hk. rewrite !u32_testbit. f_equal.
  destruct (Z.eq_dec k 0) as [->|Hne].
  - rewrite !red_word_bit0. reflexivity.
  - rewrite !red_word_bits by lia. rewrite red_word_u32.
    rewrite red_word_bits by lia. reflexivity.
Qed.

Lemma peek_green_word (m : gmap Z Z) a v w :
  Io.peek (<[a := green_word v w]> m) a = green_word v w.
Proof. rewrite <- green_word_u32 at 1. rewrite peek_insert_eq. apply green_word_u32. Qed.

Lemma peek_red_word (m : gmap Z Z) a v w :
  Io.peek (<[a := red_word v w]> m) a = red_word v w.
Proof. rewrite <- red_word_u32 at 1. rewrite peek_insert_eq. apply red_word_u32. Qed.

(** Two writes to one LED leave what the second alone would. *)
Lemma drive_mem_twice g r v1 v2 m :
  g ≠ r -> drive_mem g r v2 (drive_mem g r v1 m) = drive_mem g r v2 m.
Proof.
  intros Hne. rewrite !drive_mem_explicit by assumption.
  rewrite peek_red_word.
  rewrite (peek_insert_ne _ r g) by congruence. rewrite peek_green_word.
  rewrite green_word_twice, red_word_twice.
  apply map_eq. intros k. rewrite !lookup_insert.
  repeat case_decide; simplify_eq; reflexivity.
Qed.

(** Writes to the registers of two LEDs commute. *)
Lemma drive_mem_commute g1 r1 v1 g2 r2 v2 m :
  g1 ≠ r1 -> g2 ≠ r2 -> g1 ≠ g2 -> g1 ≠ r2 -> r1 ≠ g2 -> r1 ≠ r2 ->
  drive_mem g2 r2 v2 (drive_mem g1 r1 v1 m) = drive_mem g1 r1 v1 (drive_mem g2 r2 v2 m).
Proof.
  intros H1 H2 H3 H4 H5 H6. rewrite !drive_mem_explicit by assumption.
  rewrite !peek_insert_ne by congruence.
  apply map_eq. intros k. rewrite !lookup_insert.
  repeat case_decide; simplify_eq; reflexivity.
Qed.

(** X8. Last write wins: after two writes that parse on the same LedId, the
    registers hold exactly what the second write alone would have left,
    whatever the first one was; in particular writing the same value twice
    is the same as writing it once. *)
Theorem last_write_wins base st id pd buffer1 len1 v1 buffer2 len2 v2 :
  registry base st -> (1 <= id <= 5)%nat ->
  kstrtoint_from_user buffer1 len1 = KOk v1 ->
  kstrtoint_from_user buffer2 len2 = KOk v2 ->
  mem (snd (dev_write (File (id - 1) pd) buffer2 len2
              (snd (dev_write (File (id - 1) pd) buffer1 len1 st))))
  = mem (snd (dev_write (File (id - 1) pd) buffer2 len2 st)).
Proof.
  intros Hreg Hid Hv1 Hv2.
  destruct (table_distinct base (id - 1) (id - 1)) as [Hgr _]; [lia..|].
  rewrite (dev_write_eq base st (id - 1) pd buffer1 len1) by (assumption || lia).
  rewrite (dev_write_eq base st (id - 1) pd buffer2 len2) by (assumption || lia).
  rewrite Hv1, Hv2. cbn [snd].
  rewrite (dev_write_eq base) by (exact Hreg || lia). rewrite Hv2.
  cbn [snd drive_post mem]. by apply drive_mem_twice.
Qed.

Lemma last_write_wins_witness :
  mem (snd (dev_write (File (4 - 1) None) (UBuf "1") 1
              (snd (dev_write (File (4 - 1) None) (UBuf "6") 1 st_ready))))
  = mem (snd (dev_write (File (4 - 1) None) (UBuf "1") 1 st_ready)).
Proof.
  apply (last_write_wins 0xD0000000 st_ready 4 None (UBuf "6") 1 6 (UBuf "1") 1 1).
  - vm_compute. reflexivity.
  - lia.
  - vm_compute. reflexivity.
  - vm_compute. reflexivity.
Defined.

(** X9. Writes to two different LedIds commute: in either order both
    calls return the same results and the registers end with the same
    content. *)
Theorem writes_commute base st i j pdi pdj bi li bj lj :
  registry base st -> (1 <= i <= 5)%nat -> (1 <= j <= 5)%nat -> i ≠ j ->
  let wi := dev_write (File (i - 1) pdi) bi li in
  let wj := dev_write (File (j - 1) pdj) bj lj in
  fst (wj (snd (wi st))) = fst (wj st) /\
  fst (wi (snd (wj st))) = fst (wi st) /\
  mem (snd (wj (snd (wi st)))) = mem (snd (wi (snd (wj st)))).
Proof.
  intros Hreg Hi Hj Hne wi wj. subst wi wj.
  destruct (table_distinct base (i - 1) (i - 1)) as [Hii _]; [lia..|].
  destruct (table_distinct base (j - 1) (j - 1)) as [Hjj _]; [lia..|].
  destruct (table_distinct base (i - 1) (j - 1)) as [Hij Hd]; [lia..|].
  destruct (table_distinct base (j - 1) (i - 1)) as [Hji _]; [lia..|].
  destruct Hd as [Hgg Hrr]; [lia|].
  rewrite !(dev_write_eq base st (i - 1) pdi bi li) by (assumption || lia).
  rewrite !(dev_write_eq base st (j - 1) pdj bj lj) by (assumption || lia).
  destruct (kstrtoint_from_user bi li) as [ei|vi] eqn:Ei;
    destruct (kstrtoint_from_user bj lj) as [ej|vj] eqn:Ej; cbn [snd fst];
    rewrite ?(dev_write_eq base st (i - 1) pdi bi li) by (assumption || lia);
    rewrite ?(dev_write_eq base st (j - 1) pdj bj lj) by (assumption || lia);
    rewrite ?(dev_write_eq base _ (i - 1) pdi bi li) by (exact Hreg || lia);
    rewrite ?(dev_write_eq base _ (j - 1) pdj bj lj) by (exact Hreg || lia);
    rewrite ?Ei, ?Ej; cbn [fst snd drive_post mem]; try done.
  split; [done|split; [done|]].
  apply drive_mem_commute; congruence.
Qed.

Lemma writes_commute_witness :
  let wi := dev_write (File (1 - 1) None) (UBuf "3") 1 in
  let wj := dev_write (File (5 - 1) None) (UBuf "2") 1 in
  fst (wj (snd (wi st_ready))) = fst (wj st_ready) /\
  fst (wi (snd (wj st_ready))) = fst (wi st_ready) /\
  mem (snd (wj (snd (wi st_ready)))) = mem (snd (wi (snd (wj st_ready)))).
Proof.
  apply (writes_commute 0xD0000000 st_ready 1 5 None None (UBuf "3") 1 (UBuf "2") 1).
  - vm_compute. reflexivity.
  - lia.
  - lia.
  - lia.
Defined.

(** ** Any sequence of sessions *)









Example ref_board_sessions :
  fst (run_sessions [(1%nat, [AWrite (UBuf "3") 1; ARead (UBuf "??") 2; ARead (UBuf "??") 2]);
                     (5%nat, [ARead BadPtr 1; AWrite (UBuf "on") 2; AWrite BadPtr 4])]
                    st_ready)
  = Done [[1; 1; 0]; [1; - EINVAL; - EFAULT]].
Proof. vm_compute. reflexivity. Qed.

(** ** Bring-up failures *)

(** X11. When register_chrdev fails, hddled_init returns its negative
    result and stops there: the only hardware access was the PCI probe (one
    write to 0xcf8, one read from 0xcfc); no class, no device node, no
    mapping, no slot and no register was touched, so the LEDs are not
    forced off; [majorNumber] holds the error. *)
Theorem init_chrdev_failure hw st :
  chrdev_major hw < 0 ->
  exists st',
    hddled_init hw st = (Done (chrdev_major hw), st') /\
    trace st' = trace st ++ [Outl 0x80006810 PCI_CFG_CTRL; Inl PCI_CFG_DATA (probe hw)] /\
    mem st' = mem st /\ mapped st' = mapped st /\ hddleds st' = hddleds st /\
    hddledDevices st' = hddledDevices st /\ hddledClass st' = hddledClass st /\
    majorNumber st' = chrdev_major hw.
Proof.
  intros Hneg. exists (with_major (chrdev_major hw) (probed hw 0x10 st)).
  split.
  - unfold hddled_init.
    rewrite (kbind_done _ _ _ _ _ (read_base_eq hw 0x10 st)).
    unfold register_chrdev at 1. unfold kbind at 1. unfold kbind at 1.
    destruct (Z.ltb_spec (chrdev_major hw) 0) as [_|Hpos]; [reflexivity|lia].
  - unfold probed. kstate_fields. rewrite <- app_assoc. done.
Qed.

Lemma init_chrdev_failure_witness :
  exists st',
    hddled_init hw_no_major (boot mem_power_on) = (Done (chrdev_major hw_no_major), st') /\
    trace st' = trace (boot mem_power_on)
                ++ [Outl 0x80006810 PCI_CFG_CTRL; Inl PCI_CFG_DATA (probe hw_no_major)] /\
    mem st' = mem (boot mem_power_on) /\ mapped st' = mapped (boot mem_power_on) /\
    hddleds st' = hddleds (boot mem_power_on) /\
    hddledDevices st' = hddledDevices (boot mem_power_on) /\
    hddledClass st' = hddledClass (boot mem_power_on) /\
    majorNumber st' = chrdev_major hw_no_major.
Proof.
  apply (init_chrdev_failure hw_no_major (boot mem_power_on)). reflexivity.
Defined.



(** ** Where the registers lie in their page *)

Lemma u32_mod_page x : u32 x mod 2 ^ 12 = x mod 2 ^ 12.
Proof. unfold u32. apply Z.mod_mod_divide. exists (2 ^ 20). reflexivity. Qed.

(** X13. On a 4KB-aligned base, as read_base always resolves, the green
    register of LED index [i] lies at offset 0x5B8 + 8i of its page and the
    red one at offset 0x5E0 + 8i, so the four bytes of every register word
    lie inside the page that holds its first byte, the page the
    one-byte mapping of create_hddled covers. *)
Theorem registers_within_page base i :
  base mod 2 ^ 12 = 0 -> (i < 5)%nat ->
  green_addr base i mod 2 ^ 12 = 0x5B8 + 8 * Z.of_nat i /\
  red_addr base i mod 2 ^ 12 = 0x5E0 + 8 * Z.of_nat i /\
  green_addr base i mod 2 ^ 12 + 4 <= 2 ^ 12 /\
  red_addr base i mod 2 ^ 12 + 4 <= 2 ^ 12.
Proof.
  intros Hbase Hi.
  assert (Hg : green_addr base i mod 2 ^ 12 = 0x5B8 + 8 * Z.of_nat i).
  { rewrite green_addr_offset, u32_mod_page, Zplus_mod, Hbase.
    do 5 (destruct i as [|i]; [reflexivity|]). lia. }
  assert (Hr : red_addr base i mod 2 ^ 12 = 0x5E0 + 8 * Z.of_nat i).
  { rewrite red_addr_offset, u32_mod_page, Zplus_mod, Hbase.
    do 5 (destruct i as [|i]; [reflexivity|]). lia. }
  rewrite Hg, Hr. repeat split; lia.
Qed.

Lemma registers_within_page_witness :
  green_addr (resolved_base hw_probe) 4 mod 2 ^ 12 = 0x5B8 + 8 * Z.of_nat 4 /\
  red_addr (resolved_base hw_probe) 4 mod 2 ^ 12 = 0x5E0 + 8 * Z.of_nat 4 /\
  green_addr (resolved_base hw_probe) 4 mod 2 ^ 12 + 4 <= 2 ^ 12 /\
  red_addr (resolved_base hw_probe) 4 mod 2 ^ 12 + 4 <= 2 ^ 12.
Proof.
  apply (registers_within_page (resolved_base hw_probe) 4).
  - vm_compute. reflexivity.
  - lia.
Defined.

(** ** A mapping that fails *)

Section MappingFailure.
Variable hw : platform.

(** A pass of the mapping loop in which a mapping fails ends in a fault. *)
Lemma create_hddleds_pass_fault n i offset base st :
  (i < length (hddleds st))%nat ->
  ioremap_ok hw (u32 (base + offset)) = false \/
  ioremap_ok hw (u32 (u32 (base + offset) + 0x28)) = false ->
  fst (create_hddleds hw (S n) i offset base st) = Oops.
Proof.
  intros Hi Hfail. apply Nat.ltb_lt in Hi as Hi'.
  cbn [create_hddleds]. unfold kbind at 1.
  unfold create_hddled, kbind, Io.ioremap.
  destruct (ioremap_ok hw (u32 (base + offset))) eqn:Hg;
    cbn -[insert];
    destruct (ioremap_ok hw (u32 (u32 (base + offset) + 0x28))) eqn:Hr;
    cbn -[insert];
    try (destruct Hfail; discriminate);
    unfold hddleds_set; simpl (hddleds _); rewrite Hi'; cbn -[insert];
    unfold hddleds_get; cbn -[insert];
    rewrite list_lookup_insert_eq by assumption; reflexivity.
Qed.

Lemma create_hddleds_fault n : forall i offset base st,
  (i + n <= length (hddleds st))%nat ->
  (exists a, a ∈ (loop_expect n offset base).*1 /\ ioremap_ok hw a = false) ->
  fst (create_hddleds hw n i offset base st) = Oops.
Proof.
  induction n as [|n IH]; intros i offset base st Hlen (a & Ha & Hfail).
  - cbn in Ha. inversion Ha.
  - destruct (ioremap_ok hw (u32 (base + offset))) eqn:Hg;
      [destruct (ioremap_ok hw (u32 (u32 (base + offset) + 0x28))) eqn:Hr|].
    + rewrite create_hddleds_pass by (assumption || lia).
      apply IH; [cbn; rewrite length_insert; lia|].
      exists a. split; [|exact Hfail]. cbn in Ha.
      apply elem_of_cons in Ha as [->|Ha]; [congruence|].
      apply elem_of_cons in Ha as [->|Ha]; [congruence|]. exact Ha.
    + apply create_hddleds_pass_fault; [lia|by right].
    + apply create_hddleds_pass_fault; [lia|by left].
Qed.

(** X14. When the registration succeeds and any one of the ten mappings
    fails, hddled_init neither returns an error nor succeeds: it ends in a
    NULL-pointer fault. *)
Theorem mapping_failure_faults st a :
  0 <= chrdev_major hw -> class_err hw = None -> length (hddleds st) = 5%nat ->
  a ∈ reg_addrs (resolved_base hw) -> ioremap_ok hw a = false ->
  fst (hddled_init hw st) = Oops.
Proof.
  intros Hmajor Hclass Hlen Ha Hfail. unfold hddled_init.
  rewrite (kbind_done _ _ _ _ _ (read_base_eq hw 0x10 st)).
  unfold register_chrdev at 1. unfold kbind at 1. unfold kbind at 1.
  destruct (Z.ltb_spec (chrdev_major hw) 0) as [Hneg|_]; [lia|].
  unfold class_create, kbind at 1. rewrite Hclass.
  rewrite (kbind_done _ _ _ _ _ (create_devices_eq 5 0 _)).
  unfold kbind at 1.
  match goal with
  | |- context [create_hddleds hw 5 0 ?o ?b ?s] =>
      pose proof (create_hddleds_fault 5 0 o b s) as Hloop
  end.
  destruct (create_hddleds hw 5 0 _ _ _) as [[[]|] st3]; [|reflexivity].
  discriminate Hloop.
  - unfold probed. kstate_fields. rewrite Hlen. reflexivity.
  - exists a. split; [|exact Hfail].
    rewrite loop_expect_table, off_table_addrs. exact Ha.
Qed.

End MappingFailure.

Lemma mapping_failure_faults_witness :
  fst (hddled_init hw_map_fail (boot mem_power_on)) = Oops.
Proof.
  apply (mapping_failure_faults hw_map_fail (boot mem_power_on) 0xD0C505C8).
  - vm_compute. discriminate.
  - reflexivity.
  - reflexivity.
  - apply (list_elem_of_lookup_2 _ 4%nat). reflexivity.
  - reflexivity.
Defined.

(** ** What a read shows after a run of writes *)

(** A write on another LED, or one that does not parse, leaves the state
    read from LED [id] as it was; one that parses on [id] sets it. *)
Lemma get_after_write base st id id' buffer len :
  registry base st -> (1 <= id <= 5)%nat -> (1 <= id' <= 5)%nat ->
  registry base (snd (dev_write (File (id' - 1) None) buffer len st)) /\
  fst (get id (snd (dev_write (File (id' - 1) None) buffer len st)))
  = match kstrtoint_from_user buffer len with
    | KOk v => if (id' =? id)%nat then Done (sprintf_d (Z.land v 3)) else fst (get id st)
    | KErr _ => fst (get id st)
    end.
Proof.
  intros Hreg Hid Hid'. rewrite (dev_write_eq base) by (assumption || lia).
  destruct (kstrtoint_from_user buffer len) as [err|v]; [done|].
  cbn [snd]. split; [exact Hreg|].
  destruct (Nat.eqb_spec id' id) as [->|Hne].
  - by apply drive_then_get.
  - destruct (table_distinct base (id - 1) (id' - 1)) as [Hgr Hd]; [lia..|].
    destruct (table_distinct base (id' - 1) (id - 1)) as [Hgr' _]; [lia..|].
    destruct Hd as [Hgg Hrr]; [lia|].
    rewrite (get_eq base) by assumption. rewrite (get_eq base st) by assumption.
    cbn [fst drive_post mem]. rewrite !drive_mem_other by congruence. reflexivity.
Qed.

(** X15. After any run of writes on LedIds in 1..5, a read of LedId [id]
    returns the digit of the two low bits of the last write on [id] that
    parsed; if none did, it returns what a read returned before the run.
    Writes on other LEDs and writes that fail to parse never show. *)
Theorem read_shows_last_parsed_write base id ws : forall st,
  registry base st -> (1 <= id <= 5)%nat ->
  Forall (fun w => (1 <= w.1.1 <= 5)%nat) ws ->
  fst (get id (snd (run_writes ws st)))
  = match last_parsed id ws with
    | Some v => Done (sprintf_d (Z.land v 3))
    | None => fst (get id st)
    end.
Proof.
  induction ws as [|[[id' buffer] len] ws IH]; intros st Hreg Hid Hids; [reflexivity|].
  apply Forall_cons in Hids as [Hid' Hids]. cbn [fst] in Hid'.
  destruct (get_after_write base st id id' buffer len Hreg Hid Hid') as [Hreg1 Hget].
  destruct (dev_write (File (id' - 1) None) buffer len st) as [[r|] st1] eqn:Hrun.
  - cbn [snd] in Hreg1, Hget. specialize (IH st1 Hreg1 Hid Hids).
    cbn [run_writes last_parsed]. unfold kbind at 1. rewrite Hrun.
    unfold kbind, kret. destruct (run_writes ws st1) as [[t|] st2]; cbn [snd] in *.
    + rewrite IH. destruct (last_parsed id ws); [reflexivity|].
      rewrite Hget. destruct (kstrtoint_from_user buffer len), (id' =? id)%nat; reflexivity.
    + rewrite IH. destruct (last_parsed id ws); [reflexivity|].
      rewrite Hget. destruct (kstrtoint_from_user buffer len), (id' =? id)%nat; reflexivity.
  - rewrite (dev_write_eq base) in Hrun by (assumption || lia).
    destruct (kstrtoint_from_user buffer len); discriminate Hrun.
Qed.

Lemma read_shows_last_parsed_write_witness :
  fst (get 2 (snd (run_writes [(2%nat, UBuf "1", 1); (3%nat, UBuf "3", 1);
                               (2%nat, UBuf "6", 1); (2%nat, UBuf "off", 3)]
                              st_ready)))
  = match last_parsed 2 [(2%nat, UBuf "1", 1); (3%nat, UBuf "3", 1);
                         (2%nat, UBuf "6", 1); (2%nat, UBuf "off", 3)] with
    | Some v => Done (sprintf_d (Z.land v 3))
    | None => fst (get 2 st_ready)
    end.
Proof.
  apply (read_shows_last_parsed_write 0xD0000000 2).
  - vm_compute. reflexivity.
  - lia.
  - repeat constructor; cbn; lia.
Defined.

Example ref_board_last_write :
  last_parsed 2 [(2%nat, UBuf "1", 1); (3%nat, UBuf "3", 1);
                 (2%nat, UBuf "6", 1); (2%nat, UBuf "off", 3)] = Some 6 /\
  fst (get 2 (snd (run_writes [(2%nat, UBuf "1", 1); (3%nat, UBuf "3", 1);
                               (2%nat, UBuf "6", 1); (2%nat, UBuf "off", 3)]
                              st_ready))) = Done "2"%string.
Proof. split; vm_compute; reflexivity. Qed.
